(** * otmorris: the Morris trajectory design generator

    A shallow embedding of [lib/src/MorrisExperiment.cxx] (class
    [OTMORRIS::MorrisExperiment]) and the properties of its four
    constructors and of [generate()].

    Conventions of the embedding.

    - [NumericalScalar] (a C++ [double]) is rendered as a rational [Q], and
      the sums, products and quotients of scalars are the exact ones: the
      theorems speak about the formulas the code writes down.  The
      concrete runs of [generate()] below use dyadic values (0, 0.5, 1,
      1.5, ...) on which binary floating point is exact too.  A statement
      about stored or generated values is made in the shape of the code's
      own expression (as [lower + delta * (x + step)], not simplified
      further), or is an inequality that rounding to nearest preserves.
    - Rounding is modelled where the code turns a scalar into an integer,
      the cast [static_cast<UnsignedInteger>(1 + 1 / step_[p])] of
      [generateXBaseFromGrid()]: there the result depends on the rounding
      of the quotients (for 100 levels the cast sees 99.99999999999999 and
      yields 99).  [toDouble] below is rounding to the nearest binary64
      number, ties to even, on an unbounded exponent range; the scalars
      that reach the cast are steps and their inverses, far from the
      overflow and underflow thresholds.
    - Division by zero, which yields an infinity or a NaN in C++, has no
      counterpart in [Q] (where [x / 0 == 0]); the theorems that depend on
      the value of a quotient exclude a zero divisor by hypothesis.
    - [UnsignedInteger] is rendered as [nat].  The only products the code
      forms are row indices below [N * (dimension + 1)], the row count of a
      sample that is allocated in memory, so no 64-bit wrap-around is
      modelled; level counts are converted to [double] before any
      arithmetic is done on them, which is exact up to [2^53].
    - A C++ [throw] is the [Throw] result; the exception carries the site it
      was thrown from in place of the formatted text.
    - The global [RandomGenerator] state is passed explicitly, and the
      OpenTURNS samplers are an interface ([RandomGenerator] below); building
      a distribution object is taken to succeed. *)

From Stdlib Require Import QArith Qround Qminmax Qabs Qpower Lqa Lia.
From stdpp Require Import base option list strings gmap.

(** ** OpenTURNS value types *)

Abbreviation NumericalScalar := Q (only parsing).
Abbreviation NumericalPoint := (list Q) (only parsing).
Abbreviation Indices := (list nat) (only parsing).

#[global] Instance NumericalScalar_inhabited : Inhabited Q := populate 0%Q.

(** [NumericalSample]: [getSize] points, each of [getDimension] coordinates.
    The dimension is stored with the sample, so that an empty sample still
    has one. *)
Record NumericalSample : Type := mkSample {
  sampleDimension : nat;
  sampleData : list NumericalPoint
}.

Definition getSize (s : NumericalSample) : nat := length (sampleData s).

(** [NumericalSample(size, dimension)]: a zero-filled sample. *)
Definition NumericalSample_new (size dimension : nat) : NumericalSample :=
  mkSample dimension (replicate size (replicate dimension 0%Q)).

(** [NumericalSample()]: OpenTURNS's default sample has no point. *)
Definition NumericalSample_default : NumericalSample := NumericalSample_new 0 1.

(** [sample[r][c] = v].  The C++ accessor is unchecked; here a write outside
    the sample leaves it unchanged. *)
Definition set_entry (s : NumericalSample) (r c : nat) (v : NumericalScalar) : NumericalSample :=
  mkSample (sampleDimension s) (alter (fun row => <[c := v]> row) r (sampleData s)).

(** [sample.getImplementation()->getData()]: the row-major flat storage. *)
Definition getData (s : NumericalSample) : NumericalPoint := concat (sampleData s).

(** Class invariant of [NumericalSample]: every point has the sample's
    dimension. *)
Definition wf_sample (s : NumericalSample) : Prop :=
  Forall (fun row => length row = sampleDimension s) (sampleData s).

(** [Interval]: lower and upper bound vectors. *)
Record Interval : Type := mkInterval {
  getLowerBound : NumericalPoint;
  getUpperBound : NumericalPoint
}.

Definition Interval_getDimension (i : Interval) : nat := length (getLowerBound i).

(** [Interval(dimension)]: the unit hypercube [0,1]^dimension. *)
Definition Interval_unit (dimension : nat) : Interval :=
  mkInterval (replicate dimension 0%Q) (replicate dimension 1%Q).

(** Class invariant of [Interval]: both bounds have the same dimension. *)
Definition wf_interval (i : Interval) : Prop :=
  length (getUpperBound i) = length (getLowerBound i).

(** [NumericalPoint] difference, coordinate by coordinate. *)
Definition point_sub (a b : NumericalPoint) : NumericalPoint := zip_with Qminus a b.

(** [sample - point]: every point translated by [- point]. *)
Definition sample_sub (s : NumericalSample) (t : NumericalPoint) : NumericalSample :=
  mkSample (sampleDimension s) (map (fun row => zip_with Qminus row t) (sampleData s)).

(** [sample /= point]: every point scaled coordinate by coordinate. *)
Definition sample_div (s : NumericalSample) (d : NumericalPoint) : NumericalSample :=
  mkSample (sampleDimension s) (map (fun row => zip_with Qdiv row d) (sampleData s)).

(** [x < y] on scalars. *)
Definition Qlt_bool (x y : NumericalScalar) : bool := negb (Qle_bool y x).

(** ** Exceptions *)

(** The texts of the [throw] statements of MorrisExperiment.cxx, with the
    values they print, and the refusal of an empty sample by
    [NumericalSample::getMin()] and [getMax()]. *)
Inductive Message : Type :=
| LevelsShouldBeAtLeast2 (k level : nat)
| LevelsAndIntervalSameSize (levelsSize intervalSize : nat)
| DesignNotInUnitCube (k : nat) (xMin xMax : Q)
| LevelsAndDesignSameDimension (designDimension intervalSize : nat)
| CouldNotBuildColumn
| EmptySample.

Inductive Exception : Type :=
| InvalidArgumentException (what : Message)
| InternalException (what : Message).

(** The error kinds the specification names, by throw site. *)
Inductive ErrorKind : Type :=
| InvalidConfiguration | DimensionMismatch | OutOfRangeInput | IndexOutOfRange | LibraryError.

Definition errorKind (e : Exception) : ErrorKind :=
  match e with
  | InvalidArgumentException (LevelsShouldBeAtLeast2 _ _) => InvalidConfiguration
  | InvalidArgumentException (LevelsAndIntervalSameSize _ _) => DimensionMismatch
  | InvalidArgumentException (LevelsAndDesignSameDimension _ _) => DimensionMismatch
  | InvalidArgumentException (DesignNotInUnitCube _ _ _) => OutOfRangeInput
  | InvalidArgumentException CouldNotBuildColumn => IndexOutOfRange
  | _ => LibraryError
  end.

Inductive Result (A : Type) : Type :=
| Ok (a : A)
| Throw (e : Exception).
Arguments Ok {A} a.
Arguments Throw {A} e.

Definition bind {A B} (m : Result A) (k : A -> Result B) : Result B :=
  match m with
  | Ok a => k a
  | Throw e => Throw e
  end.

Notation "'do' x <- m ;; k" := (bind m (fun x => k))
  (at level 10, x name, m at level 99, k at level 200).
Notation "'do' ' pat <- m ;; k" := (bind m (fun x => match x with pat => k end))
  (at level 10, pat pattern, m at level 99, k at level 200).

(** [failsWith r kind]: [r] is an exception of the given kind. *)
Definition failsWith {A} (r : Result A) (kind : ErrorKind) : Prop :=
  exists e, r = Throw e /\ errorKind e = kind.

(** [for (i = start; i < start + count; ++i) body], threading the variables
    the body assigns. *)
Fixpoint for_loop {A} (start count : nat) (body : nat -> A -> Result A) (a : A) : Result A :=
  match count with
  | O => Ok a
  | S count' => do a' <- body start a ;; for_loop (S start) count' body a'
  end.

(** [sample.getMin()] / [sample.getMax()]: the coordinate-wise extrema.
    OpenTURNS refuses an empty sample. *)
Definition getMin (s : NumericalSample) : Result NumericalPoint :=
  match sampleData s with
  | [] => Throw (InternalException EmptySample)
  | row :: rows => Ok (foldl (zip_with Qmin) row rows)
  end.

Definition getMax (s : NumericalSample) : Result NumericalPoint :=
  match sampleData s with
  | [] => Throw (InternalException EmptySample)
  | row :: rows => Ok (foldl (zip_with Qmax) row rows)
  end.

(** ** The random source *)

(** The three OpenTURNS samplers [generate()] draws from, over an explicit
    generator state, with the contract each one documents:
    - [RandomGenerator::IntegerGenerate(n)]: an integer of [[0, n)];
    - [KPermutationsDistribution(k, n).getRealization()]: [k] pairwise
      distinct integers of [[0, n)], in their drawn order;
    - [UserDefined(support).getSample(size)]: [size] points of the support. *)
Class RandomGenerator : Type := {
  RandomState : Type;
  IntegerGenerate : nat -> RandomState -> nat * RandomState;
  KPermutations_getRealization : nat -> nat -> RandomState -> list nat * RandomState;
  UserDefined_getSample : NumericalSample -> nat -> RandomState -> NumericalSample * RandomState;
  IntegerGenerate_lt : forall n st, 0 < n -> fst (IntegerGenerate n st) < n;
  KPermutations_length : forall k n st, k <= n ->
    length (fst (KPermutations_getRealization k n st)) = k;
  KPermutations_NoDup : forall k n st, NoDup (fst (KPermutations_getRealization k n st));
  KPermutations_lt : forall k n st,
    Forall (fun i => i < n) (fst (KPermutations_getRealization k n st));
  UserDefined_size : forall support size st,
    getSize (fst (UserDefined_getSample support size st)) = size;
  UserDefined_support : forall support size st,
    sampleData support <> [] ->
    Forall (fun point => point ∈ sampleData support)
           (sampleData (fst (UserDefined_getSample support size st)))
}.

(** ** MorrisExperiment *)

(** [double(n)] and [static_cast<UnsignedInteger>(x)] (truncation; the cast
    is applied to [1 + 1 / step], which is at least 1 for a step that is not
    negative, so that the [level - 1] that follows does not wrap around). *)
Definition toScalar (n : nat) : Q := inject_Z (Z.of_nat n).
Definition toUnsignedInteger (x : Q) : nat := Z.to_nat (Qfloor x).

(** *** Double precision

    The binary64 number nearest to a rational.  [binade x] is the exponent
    [e] with [2^e <= x < 2^(e+1)]; [x] scaled by [2^(52-e)] lies in
    [[2^52, 2^53)] and is rounded to an integer, the 53-bit significand,
    ties going to the even one. *)
Definition binade (x : Q) : Z :=
  if Qle_bool 1 x then Z.log2 (Qfloor x) else (- Z.log2_up (Qceiling (/ x)))%Z.

Definition roundHalfEven (y : Q) : Z :=
  let f := Qfloor y in
  match (y - inject_Z f ?= 1 # 2)%Q with
  | Lt => f
  | Gt => (f + 1)%Z
  | Eq => if Z.even f then f else (f + 1)%Z
  end.

Definition roundPositive (x : Q) : Q :=
  let e := binade x in
  (inject_Z (roundHalfEven (x * 2 ^ (52 - e))) * 2 ^ (e - 52))%Q.

Definition toDouble (x : Q) : Q :=
  match (x ?= 0)%Q with
  | Eq => 0%Q
  | Gt => roundPositive x
  | Lt => (- roundPositive (- x))%Q
  end.

(** [static_cast<UnsignedInteger>(1 + 1 / step)] on the double nearest to
    [step]: the quotient is rounded, then the sum, and the cast truncates. *)
Definition levelOfStep (step : NumericalScalar) : nat :=
  toUnsignedInteger (toDouble (1 + toDouble (1 / toDouble step))).

(** The persistent attributes of the class (the three matrix members are
    never read or written). *)
Record MorrisExperiment : Type := mkMorrisExperiment {
  interval_ : Interval;
  experiment_ : NumericalSample;
  step_ : NumericalPoint;
  N_ : nat
}.

(** The "Compute step" loop, which both level constructors run on the
    zero-filled [step_]. *)
Definition computeStep (levels : Indices) (step : NumericalPoint) : Result NumericalPoint :=
  for_loop 0 (length levels) (fun k step =>
    if levels !!! k <=? 1
    then Throw (InvalidArgumentException (LevelsShouldBeAtLeast2 k (levels !!! k)))
    else Ok (<[k := (1 / (toScalar (levels !!! k) - 1))%Q]> step)) step.

(** [MorrisExperiment(levels, N)] *)
Definition MorrisExperiment_levels (levels : Indices) (N : nat) : Result MorrisExperiment :=
  let interval := Interval_unit (length levels) in
  let experiment := NumericalSample_default in
  let step := replicate (length levels) 0%Q in
  do step <- computeStep levels step ;;
  Ok (mkMorrisExperiment interval experiment step N).

(** [MorrisExperiment(levels, interval, N)] *)
Definition MorrisExperiment_levels_interval
    (levels : Indices) (interval : Interval) (N : nat) : Result MorrisExperiment :=
  let experiment := NumericalSample_default in
  let step := replicate (length levels) 0%Q in
  if negb (length levels =? Interval_getDimension interval)
  then Throw (InvalidArgumentException
                (LevelsAndIntervalSameSize (length levels) (Interval_getDimension interval)))
  else
    do step <- computeStep levels step ;;
    Ok (mkMorrisExperiment interval experiment step N).

(** [MorrisExperiment(lhsDesign, N)] *)
Definition MorrisExperiment_lhs (lhsDesign : NumericalSample) (N : nat) : Result MorrisExperiment :=
  let interval := Interval_unit (sampleDimension lhsDesign) in
  let experiment := lhsDesign in
  let step := replicate (sampleDimension lhsDesign) ((1 # 2) / toScalar (getSize lhsDesign))%Q in
  do xMin <- getMin lhsDesign ;;
  do xMax <- getMax lhsDesign ;;
  do _ <- for_loop 0 (length xMax) (fun k _ =>
      if Qlt_bool (xMin !!! k) 0 || Qlt_bool 1 (xMax !!! k)
      then Throw (InvalidArgumentException (DesignNotInUnitCube k (xMin !!! k) (xMax !!! k)))
      else Ok tt) tt ;;
  Ok (mkMorrisExperiment interval experiment step N).

(** [MorrisExperiment(lhsDesign, interval, N)] *)
Definition MorrisExperiment_lhs_interval
    (lhsDesign : NumericalSample) (interval : Interval) (N : nat) : Result MorrisExperiment :=
  let step := replicate (sampleDimension lhsDesign) ((1 # 2) / toScalar (getSize lhsDesign))%Q in
  if negb (sampleDimension lhsDesign =? Interval_getDimension interval)
  then Throw (InvalidArgumentException
                (LevelsAndDesignSameDimension (sampleDimension lhsDesign)
                                              (Interval_getDimension interval)))
  else
    let lowerBound := getLowerBound interval in
    let upperBound := getUpperBound interval in
    let delta := point_sub upperBound lowerBound in
    let experiment := sample_sub lhsDesign lowerBound in
    let experiment := sample_div experiment delta in
    Ok (mkMorrisExperiment interval experiment step N).

(** [getOrientationMatrixColumn(p)] *)
Definition getOrientationMatrixColumn (g : MorrisExperiment) (p : nat) : Result NumericalPoint :=
  let dimension := length (step_ g) in
  if dimension <=? p
  then Throw (InvalidArgumentException CouldNotBuildColumn)
  else
    let orientation := replicate (dimension + 1) 1%Q in
    for_loop 0 (p + 1) (fun i orientation => Ok (<[i := (-1)%Q]> orientation)) orientation.

Section Generate.
Context `{RandomGenerator}.

(** [generateXBaseFromLHS()] *)
Definition generateXBaseFromLHS (g : MorrisExperiment) (rng : RandomState)
  : Result (NumericalPoint * RandomState) :=
  let size := getSize (experiment_ g) in
  let '(index, rng) := IntegerGenerate size rng in
  Ok (sampleData (experiment_ g) !!! index, rng).

(** [generateXBaseFromGrid()].  The level is cast from the double
    [1 + 1 / step_[p]]: the stored step is the double nearest to the
    step of the model, and the quotient and the sum are rounded in turn. *)
Definition generateXBaseFromGrid (g : MorrisExperiment) (rng : RandomState)
  : Result (NumericalPoint * RandomState) :=
  let dimension := Interval_getDimension (interval_ g) in
  let xBase := replicate dimension 0%Q in
  for_loop 0 dimension (fun p '(xBase, rng) =>
    let level :=
      toUnsignedInteger (toDouble (1 + toDouble (1 / toDouble (step_ g !!! p)))) in
    let '(j, rng) := IntegerGenerate (level - 1) rng in
    Ok (<[p := (step_ g !!! p * toScalar j)%Q]> xBase, rng)) (xBase, rng).

(** The entry [generate()] writes at row [i] of a trajectory, column [p]. *)
Definition realization
    (delta step xBase lowerBound directions orientationMatrixColumn : NumericalPoint)
    (p i : nat) : NumericalScalar :=
  (delta !!! p * ((orientationMatrixColumn !!! i * directions !!! p + 1) * (1 # 2) * step !!! p
                  + xBase !!! p) + lowerBound !!! p)%Q.

(** [generate()] *)
Definition generate (g : MorrisExperiment) (rng : RandomState)
  : Result (NumericalSample * RandomState) :=
  let dimension := length (step_ g) in
  let admissibleDirections := mkSample 1 [[1%Q]; [(-1)%Q]] in
  let lowerBound := getLowerBound (interval_ g) in
  let upperBound := getUpperBound (interval_ g) in
  let delta := point_sub upperBound lowerBound in
  let realizations := NumericalSample_new (N_ g * (dimension + 1)) dimension in
  for_loop 0 (N_ g) (fun k '(realizations, rng) =>
    do '(xBase, rng) <- (if 0 <? getSize (experiment_ g)
                         then generateXBaseFromLHS g rng
                         else generateXBaseFromGrid g rng) ;;
    let '(permutations, rng) := KPermutations_getRealization dimension dimension rng in
    let permutations := map toScalar permutations in
    let '(directionSample, rng) := UserDefined_getSample admissibleDirections dimension rng in
    let directions := getData directionSample in
    do realizations <- for_loop 0 dimension (fun p realizations =>
        do orientationMatrixColumn <- getOrientationMatrixColumn g p ;;
        for_loop 0 (dimension + 1) (fun i realizations =>
          Ok (set_entry realizations (k * (dimension + 1) + i) p
                (realization delta (step_ g) xBase lowerBound directions
                             orientationMatrixColumn p i)))
          realizations) realizations ;;
    Ok (realizations, rng)) (realizations, rng).

End Generate.

(** ** Persistence *)

(** The values [save()] hands to the storage manager. *)
Inductive Attribute : Type :=
| Attribute_Interval (value : Interval)
| Attribute_NumericalSample (value : NumericalSample)
| Attribute_NumericalPoint (value : NumericalPoint)
| Attribute_UnsignedInteger (value : nat).

(** The [Advocate] of the storage manager: the attributes of the object
    being stored, by name.  [saveAttribute] stores under a name and
    [loadAttribute] reads the attribute of that name; an attribute that is
    absent, or of another type, is the storage manager's own error, [None]
    here. *)
Abbreviation Advocate := (gmap string Attribute) (only parsing).

Definition saveAttribute (name : string) (value : Attribute) (adv : gmap string Attribute)
  : gmap string Attribute :=
  <[name := value]> adv.

Definition loadAttribute_Interval (name : string) (adv : gmap string Attribute)
  : option Interval :=
  match adv !! name with Some (Attribute_Interval value) => Some value | _ => None end.

Definition loadAttribute_NumericalSample (name : string) (adv : gmap string Attribute)
  : option NumericalSample :=
  match adv !! name with Some (Attribute_NumericalSample value) => Some value | _ => None end.

Definition loadAttribute_NumericalPoint (name : string) (adv : gmap string Attribute)
  : option NumericalPoint :=
  match adv !! name with Some (Attribute_NumericalPoint value) => Some value | _ => None end.

Definition loadAttribute_UnsignedInteger (name : string) (adv : gmap string Attribute)
  : option nat :=
  match adv !! name with Some (Attribute_UnsignedInteger value) => Some value | _ => None end.

Section Persistence.
(** [WeightedExperiment::save] and [WeightedExperiment::load], the methods
    of the base class: what the first adds to the advocate, and whether the
    second finds what it looks for. *)
Variable WeightedExperiment_save : gmap string Attribute -> gmap string Attribute.
Variable WeightedExperiment_load : gmap string Attribute -> option unit.

(** [save(adv)] *)
Definition save (g : MorrisExperiment) (adv : Advocate) : Advocate :=
  let adv := WeightedExperiment_save adv in
  let adv := saveAttribute "interval_" (Attribute_Interval (interval_ g)) adv in
  let adv := saveAttribute "experiment_" (Attribute_NumericalSample (experiment_ g)) adv in
  let adv := saveAttribute "step_" (Attribute_NumericalPoint (step_ g)) adv in
  saveAttribute "N_" (Attribute_UnsignedInteger (N_ g)) adv.

(** [load(adv)], on the object [g]: each attribute read replaces the
    member of its name. *)
Definition load (g : MorrisExperiment) (adv : Advocate) : option MorrisExperiment :=
  _ ← WeightedExperiment_load adv;
  interval ← loadAttribute_Interval "interval_" adv;
  let g := mkMorrisExperiment interval (experiment_ g) (step_ g) (N_ g) in
  experiment ← loadAttribute_NumericalSample "experiment_" adv;
  let g := mkMorrisExperiment (interval_ g) experiment (step_ g) (N_ g) in
  step ← loadAttribute_NumericalPoint "step_" adv;
  let g := mkMorrisExperiment (interval_ g) (experiment_ g) step (N_ g) in
  N ← loadAttribute_UnsignedInteger "N_" adv;
  Some (mkMorrisExperiment (interval_ g) (experiment_ g) (step_ g) N).

End Persistence.

(** ** Notions used to state the properties *)

(** The sample of [size] points of [dimension] coordinates whose entry
    [(r, c)] is [F r c]. *)
Definition tabulate (F : nat -> nat -> Q) (size dimension : nat) : NumericalSample :=
  mkSample dimension (map (fun r => map (F r) (seq 0 dimension)) (seq 0 size)).

(** Entry [i] of column [p] of the orientation matrix: -1 down to row [p],
    +1 below. *)
Definition orientation (p i : nat) : Q := if i <=? p then (-1)%Q else 1%Q.

Definition orientationColumn (dimension p : nat) : list Q :=
  map (orientation p) (seq 0 (dimension + 1)).

(** What [generate()] draws for one trajectory. *)
Record Draw : Type := mkDraw {
  xBase : NumericalPoint;
  permutations : NumericalPoint;
  directions : NumericalPoint
}.

Section Trajectories.
Context `{RandomGenerator}.

(** The draws at the head of the body of the trajectory loop, in the
    order the body makes them. *)
Definition trajectoryDraw (g : MorrisExperiment) (rng : RandomState)
  : Result (Draw * RandomState) :=
  let dimension := length (step_ g) in
  do '(xBase, rng) <- (if 0 <? getSize (experiment_ g)
                       then generateXBaseFromLHS g rng
                       else generateXBaseFromGrid g rng) ;;
  let '(permutations, rng) := KPermutations_getRealization dimension dimension rng in
  let '(directionSample, rng) :=
    UserDefined_getSample (mkSample 1 [[1%Q]; [(-1)%Q]]) dimension rng in
  Ok (mkDraw xBase (map toScalar permutations) (getData directionSample), rng).

(** [drawn g rng draws rng']: starting from the generator state [rng], the
    successive trajectories draw [draws] and leave the state [rng']. *)
Inductive drawn (g : MorrisExperiment) : RandomState -> list Draw -> RandomState -> Prop :=
| drawn_nil rng : drawn g rng [] rng
| drawn_cons rng t rng1 draws rng' :
    trajectoryDraw g rng = Ok (t, rng1) ->
    drawn g rng1 draws rng' ->
    drawn g rng (t :: draws) rng'.

(** Coordinate [p] of point [i] of the trajectory that draws [t]. *)
Definition trajectoryEntry (g : MorrisExperiment) (t : Draw) (i p : nat) : Q :=
  realization (point_sub (getUpperBound (interval_ g)) (getLowerBound (interval_ g)))
              (step_ g) (xBase t) (getLowerBound (interval_ g)) (directions t)
              (orientationColumn (length (step_ g)) p) p i.

(** Point [i] of the trajectory that draws [t]. *)
Definition trajectoryPoint (g : MorrisExperiment) (t : Draw) (i : nat) : list Q :=
  map (trajectoryEntry g t i) (seq 0 (length (step_ g))).

(** The loop over [p] in the body of [generate()]: it writes trajectory
    [k] from its draws. *)
Definition writeTrajectory (g : MorrisExperiment) (k : nat) (t : Draw)
    (realizations : NumericalSample) : Result NumericalSample :=
  let dimension := length (step_ g) in
  let lowerBound := getLowerBound (interval_ g) in
  let upperBound := getUpperBound (interval_ g) in
  let delta := point_sub upperBound lowerBound in
  for_loop 0 dimension (fun p realizations =>
    do orientationMatrixColumn <- getOrientationMatrixColumn g p ;;
    for_loop 0 (dimension + 1) (fun i realizations =>
      Ok (set_entry realizations (k * (dimension + 1) + i) p
            (realization delta (step_ g) (xBase t) lowerBound (directions t)
                         orientationMatrixColumn p i)))
      realizations) realizations.

(** The number of grid levels [generateXBaseFromGrid()] computes for
    dimension [p], and the generator state and integer drawn at the
    iteration for dimension [p]. *)
Definition gridLevel (g : MorrisExperiment) (p : nat) : nat :=
  levelOfStep (step_ g !!! p).

Fixpoint gridState (g : MorrisExperiment) (rng : RandomState) (p : nat) : RandomState :=
  match p with
  | O => rng
  | S q => snd (IntegerGenerate (gridLevel g q - 1) (gridState g rng q))
  end.

Definition gridDraw (g : MorrisExperiment) (rng : RandomState) (p : nat) : nat :=
  fst (IntegerGenerate (gridLevel g p - 1) (gridState g rng p)).

End Trajectories.

(** The step the level constructors store for a level count. *)
Definition stepOfLevel (level : nat) : Q := (1 / (toScalar level - 1))%Q.

(** The coordinates of a sample that lie outside [[0, 1]]. *)
Definition outsideUnitCube (s : NumericalSample) : Prop :=
  exists row k x, row ∈ sampleData s /\ row !! k = Some x /\ (x < 0 \/ 1 < x)%Q.

(** [constructed dimension N g]: one of the four constructors returned the
    generator [g], for [dimension] inputs and [N] trajectories.  The sample
    and the interval the caller passes satisfy their class invariants. *)
Inductive constructed : nat -> nat -> MorrisExperiment -> Prop :=
| constructed_levels levels N g :
    MorrisExperiment_levels levels N = Ok g ->
    constructed (length levels) N g
| constructed_levels_interval levels interval N g :
    wf_interval interval ->
    MorrisExperiment_levels_interval levels interval N = Ok g ->
    constructed (length levels) N g
| constructed_lhs lhsDesign N g :
    wf_sample lhsDesign ->
    MorrisExperiment_lhs lhsDesign N = Ok g ->
    constructed (sampleDimension lhsDesign) N g
| constructed_lhs_interval lhsDesign interval N g :
    wf_sample lhsDesign ->
    wf_interval interval ->
    MorrisExperiment_lhs_interval lhsDesign interval N = Ok g ->
    constructed (sampleDimension lhsDesign) N g.

(** Two points differ in exactly one of their first [dimension]
    coordinates. *)
Definition differInExactlyOne (dimension : nat) (a b : list Q) : Prop :=
  exists c, c < dimension /\ ~ (a !!! c == b !!! c)%Q /\
            forall c', c' < dimension -> c' <> c -> (a !!! c' == b !!! c')%Q.

(** ** A scripted random source

    A deterministic stand-in for the OpenTURNS generator: the state is the
    list of raw numbers still to be consumed (an exhausted script keeps
    answering 0).  It decides nothing about the generator; it makes the
    embedding runnable. *)
Module Scripted.

Definition integerGenerate (n : nat) (script : list nat) : nat * list nat :=
  match n with
  | O => (0, tl script)
  | S _ => (hd 0 script mod n, tl script)
  end.

(** A permutation of [[0, n)]: element [m] is inserted at a scripted
    place among the shuffled smaller ones. *)
Fixpoint shuffle (n : nat) (script : list nat) : list nat :=
  match n with
  | O => []
  | S m =>
      let smaller := shuffle m (tl script) in
      let place := hd 0 script mod S m in
      take place smaller ++ m :: drop place smaller
  end.

Definition getRealization (k n : nat) (script : list nat) : list nat * list nat :=
  (take k (shuffle n script), drop n script).

Fixpoint pick (support : list (list Q)) (size : nat) (script : list nat) : list (list Q) :=
  match size with
  | O => []
  | S m => support !!! (hd 0 script mod length support) :: pick support m (tl script)
  end.

Definition getSample (support : NumericalSample) (size : nat) (script : list nat)
  : NumericalSample * list nat :=
  (mkSample (sampleDimension support) (pick (sampleData support) size script),
   drop size script).

Lemma shuffle_S m script :
  shuffle (S m) script =
  take (hd 0 script mod S m) (shuffle m (tl script))
    ++ m :: drop (hd 0 script mod S m) (shuffle m (tl script)).
Proof. reflexivity. Qed.

Lemma shuffle_length n script : length (shuffle n script) = n.
Proof.
  revert script. induction n as [|m IH]; intros script; [done|].
  rewrite shuffle_S, length_app, length_cons, length_take, length_drop, (IH (tl script)).
  pose proof (Nat.mod_upper_bound (hd 0 script) (S m)). lia.
Qed.

Lemma shuffle_lt n script : Forall (fun i => i < n) (shuffle n script).
Proof.
  revert script. induction n as [|m IH]; intros script; [constructor|].
  rewrite shuffle_S.
  assert (Hs : Forall (fun i => i < S m) (shuffle m (tl script))).
  { eapply Forall_impl; [apply IH|]. simpl. lia. }
  apply Forall_app. split.
  - by apply Forall_take.
  - constructor; [lia|]. by apply Forall_drop.
Qed.

Lemma shuffle_NoDup n script : NoDup (shuffle n script).
Proof.
  revert script. induction n as [|m IH]; intros script; [constructor|].
  rewrite shuffle_S.
  set (l := shuffle m (tl script)). set (j := hd 0 script mod S m).
  assert (Hperm : take j l ++ m :: drop j l ≡ₚ m :: l).
  { rewrite <- Permutation_middle. by rewrite take_drop. }
  rewrite Hperm. constructor; [|apply IH].
  intros Hin. pose proof (shuffle_lt m (tl script)) as Hlt.
  rewrite Forall_forall in Hlt. specialize (Hlt _ Hin). lia.
Qed.

Lemma pick_length support size script : length (pick support size script) = size.
Proof. revert script. induction size; intros; simpl; [done|]. by f_equal. Qed.

Lemma pick_support support size script :
  support <> [] -> Forall (fun point => point ∈ support) (pick support size script).
Proof.
  intros Hne. revert script. induction size as [|m IH]; intros script; simpl; constructor.
  - apply list_elem_of_lookup_total_2.
    apply Nat.mod_upper_bound. destruct support; simpl; [done|lia].
  - apply IH.
Qed.

#[refine] Instance generator : RandomGenerator := {|
  RandomState := list nat;
  IntegerGenerate := integerGenerate;
  KPermutations_getRealization := getRealization;
  UserDefined_getSample := getSample
|}.
Proof.
  - intros [|n] st Hn; [lia|]. unfold integerGenerate, fst. apply Nat.mod_upper_bound. lia.
  - intros k n st Hk. simpl. rewrite length_take, shuffle_length. lia.
  - intros k n st. simpl. eapply sublist_NoDup; [apply shuffle_NoDup|apply sublist_take].
  - intros k n st. simpl. apply Forall_take, shuffle_lt.
  - intros support size st. unfold getSize. simpl. apply pick_length.
  - intros support size st Hne. simpl. by apply pick_support.
Defined.

End Scripted.

(** ** Concrete generators *)

(** [MorrisExperiment({3, 3}, 1)] *)
Definition example_levels : MorrisExperiment :=
  mkMorrisExperiment (Interval_unit 2) NumericalSample_default [1 # 2; 1 # 2]%Q 1.

(** [MorrisExperiment({2}, Interval({0}, {0}), 1)]: an interval reduced to a
    point. *)
Definition example_degenerate : MorrisExperiment :=
  mkMorrisExperiment (mkInterval [0%Q] [0%Q]) NumericalSample_default [1%Q] 1.

(** [MorrisExperiment(pool, 1)] for the pool of the single point (1). *)
Definition example_corner : MorrisExperiment :=
  mkMorrisExperiment (Interval_unit 1) (mkSample 1 [[1%Q]]) [1 # 2]%Q 1.

(** [MorrisExperiment(pool, 2)] for the pool of the points (0.25), (0.5). *)
Definition example_pool : MorrisExperiment :=
  mkMorrisExperiment (Interval_unit 1) (mkSample 1 [[1 # 4]; [1 # 2]]%Q) [1 # 4]%Q 2.

(** [MorrisExperiment({100}, 1)] *)
Definition example_hundred : MorrisExperiment :=
  mkMorrisExperiment (Interval_unit 1) NumericalSample_default [1 # 99]%Q 1.

(** [MorrisExperiment(pool, Interval({1}, {3}), 1)] for the pool of the
    points (1), (1.5). *)
Definition example_rescaled : MorrisExperiment :=
  mkMorrisExperiment (mkInterval [1%Q] [3%Q]) (mkSample 1 [[0 # 2]; [1 # 4]]%Q) [1 # 4]%Q 1.

(** ** Reasoning about loops *)

Lemma for_loop_S {A} start count (body : nat -> A -> Result A) a :
  for_loop start (S count) body a = do a' <- body start a ;; for_loop (S start) count body a'.
Proof. reflexivity. Qed.

(** A loop either runs to its end, keeping the invariant [I], or stops at the
    first iteration [j] whose body throws, with an exception described by
    [E j]. *)
Lemma for_loop_cases {A} (I : nat -> A -> Prop) (E : nat -> Exception -> Prop)
    start count (body : nat -> A -> Result A) a :
  I 0 a ->
  (forall j a, j < count -> I j a ->
     (exists a', body (start + j) a = Ok a' /\ I (S j) a') \/
     (exists e, body (start + j) a = Throw e /\ E j e)) ->
  (exists a', for_loop start count body a = Ok a' /\ I count a') \/
  (exists j e, j < count /\ for_loop start count body a = Throw e /\ E j e).
Proof.
  revert I E start a.
  induction count as [|count IH]; intros I E start a H0 Hstep.
  - left. exists a. split; [reflexivity|exact H0].
  - rewrite for_loop_S.
    destruct (Hstep 0 a) as [(a' & Hbody & Ha')|(e & Hbody & He)]; [lia|exact H0| |].
    + rewrite Nat.add_0_r in Hbody. rewrite Hbody. simpl.
      destruct (IH (fun j => I (S j)) (fun j => E (S j)) (S start) a' Ha')
        as [(a'' & Hloop & Ha'')|(j & e & Hj & Hloop & He)].
      * intros j b Hj Hb. replace (S start + j) with (start + S j) by lia.
        apply Hstep; [lia|exact Hb].
      * left. exists a''. split; assumption.
      * right. exists (S j), e. repeat split; [lia|assumption|assumption].
    + rewrite Nat.add_0_r in Hbody. rewrite Hbody. simpl.
      right. exists 0, e. repeat split; [lia|assumption].
Qed.

(** The loop rule for a body that cannot throw under the invariant. *)
Lemma for_loop_invariant {A} (I : nat -> A -> Prop)
    start count (body : nat -> A -> Result A) a :
  I 0 a ->
  (forall j a, j < count -> I j a -> exists a', body (start + j) a = Ok a' /\ I (S j) a') ->
  exists a', for_loop start count body a = Ok a' /\ I count a'.
Proof.
  intros H0 Hstep.
  destruct (for_loop_cases I (fun _ _ => False) start count body a H0)
    as [Hok|(j & e & _ & _ & [])]; [|exact Hok].
  intros j b Hj Hb. left. by apply Hstep.
Qed.

(** ** Samples as tables *)

Lemma tabulate_ext F G size dimension :
  (forall r c, r < size -> c < dimension -> F r c = G r c) ->
  tabulate F size dimension = tabulate G size dimension.
Proof.
  intros Hext. unfold tabulate. f_equal.
  apply map_ext_in. intros r Hr%in_seq.
  apply map_ext_in. intros c Hc%in_seq. apply Hext; lia.
Qed.

Lemma NumericalSample_new_tabulate size dimension :
  NumericalSample_new size dimension = tabulate (fun _ _ => 0%Q) size dimension.
Proof.
  unfold NumericalSample_new, tabulate. f_equal.
  apply list_eq. intros r.
  rewrite list_lookup_fmap.
  destruct (decide (r < size)) as [Hr|Hr].
  - rewrite lookup_replicate_2, lookup_seq_lt by done. simpl. f_equal.
    apply list_eq. intros c. rewrite list_lookup_fmap.
    destruct (decide (c < dimension)) as [Hc|Hc].
    + by rewrite lookup_replicate_2, lookup_seq_lt by done.
    + rewrite lookup_seq_ge by lia. simpl. apply lookup_replicate_None. lia.
  - rewrite lookup_seq_ge by lia. simpl. apply lookup_replicate_None. lia.
Qed.

Lemma set_entry_tabulate F size dimension r c v :
  set_entry (tabulate F size dimension) r c v =
  tabulate (fun r' c' => if decide (r' = r /\ c' = c) then v else F r' c') size dimension.
Proof.
  unfold set_entry, tabulate. simpl. f_equal.
  apply list_eq. intros r'.
  rewrite list_lookup_alter, !list_lookup_fmap.
  destruct (decide (r' < size)) as [Hr|Hr].
  - case_decide as Hrr; [subst r'|]; rewrite lookup_seq_lt by done; simpl; f_equal.
    + apply list_eq. intros c'.
      rewrite list_lookup_insert, !list_lookup_fmap, length_map, length_seq.
      destruct (decide (c' < dimension)) as [Hc|Hc].
      * rewrite lookup_seq_lt by done. simpl.
        destruct (decide (c = c')) as [->|Hc'].
        -- rewrite decide_True by done. by rewrite decide_True by done.
        -- rewrite decide_False by (intros [? _]; done).
           by rewrite decide_False by (intros [_ ?]; done).
      * rewrite lookup_seq_ge by lia. simpl. rewrite decide_False by lia; reflexivity.
    + apply map_ext. intros c'.
      rewrite decide_False by (intros [? _]; congruence). reflexivity.
  - case_decide as Hrr; [subst r'|]; by rewrite lookup_seq_ge by lia.
Qed.

Lemma tabulate_size F size dimension : getSize (tabulate F size dimension) = size.
Proof. unfold getSize, tabulate. simpl. by rewrite length_map, length_seq. Qed.

Lemma tabulate_wf F size dimension : wf_sample (tabulate F size dimension).
Proof.
  unfold wf_sample, tabulate. simpl. apply Forall_forall. intros row Hrow.
  apply list_elem_of_In, in_map_iff in Hrow as (r & <- & _).
  by rewrite length_map, length_seq.
Qed.

Lemma tabulate_lookup F size dimension r :
  r < size -> sampleData (tabulate F size dimension) !! r = Some (map (F r) (seq 0 dimension)).
Proof.
  intros Hr. unfold tabulate. simpl.
  by rewrite list_lookup_fmap, lookup_seq_lt by done.
Qed.

(** ** The orientation matrix *)

Lemma getOrientationMatrixColumn_Ok g p :
  p < length (step_ g) ->
  getOrientationMatrixColumn g p = Ok (orientationColumn (length (step_ g)) p).
Proof.
  intros Hp. unfold getOrientationMatrixColumn.
  destruct (Nat.leb_spec (length (step_ g)) p) as [Hle|_]; [lia|].
  set (d := length (step_ g)).
  destruct (for_loop_invariant
    (fun j o => o = map (fun i => if i <? j then (-1)%Q else 1%Q) (seq 0 (d + 1)))
    0 (p + 1) (fun i orientation => Ok (<[i := (-1)%Q]> orientation))
    (replicate (d + 1) 1%Q)) as (o & Hloop & ->).
  - apply list_eq. intros i. rewrite list_lookup_fmap.
    destruct (decide (i < d + 1)) as [Hi|Hi].
    + by rewrite lookup_replicate_2, lookup_seq_lt by done.
    + rewrite lookup_seq_ge by lia. apply lookup_replicate_None. lia.
  - intros j o Hj ->. eexists. split; [reflexivity|].
    apply list_eq. intros i.
    rewrite list_lookup_insert, !list_lookup_fmap, length_map, length_seq.
    destruct (decide (i < d + 1)) as [Hi|Hi].
    + rewrite lookup_seq_lt by done. simpl.
      destruct (decide (j = i)) as [->|Hji].
      * rewrite decide_True by done.
        destruct (Nat.ltb_spec i (S i)); [done|lia].
      * rewrite decide_False by (intros [? _]; done).
        destruct (Nat.ltb_spec i j), (Nat.ltb_spec i (S j)); (done || lia).
    + rewrite lookup_seq_ge by lia. simpl. case_decide; [lia|done].
  - rewrite Hloop. f_equal. unfold orientationColumn. fold d.
    apply map_ext. intros i. unfold orientation.
    destruct (Nat.ltb_spec i (p + 1)), (Nat.leb_spec i p); (done || lia).
Qed.

Lemma orientationColumn_lookup dimension p i :
  i <= dimension -> orientationColumn dimension p !!! i = orientation p i.
Proof.
  intros Hi. unfold orientationColumn.
  apply list_lookup_total_correct.
  by rewrite list_lookup_fmap, lookup_seq_lt by lia.
Qed.

(** ** Trajectories *)

Section GenerateLemmas.
Context `{RandomGenerator}.

Lemma generateXBaseFromGrid_Ok g rng :
  generateXBaseFromGrid g rng =
  Ok (map (fun p => (step_ g !!! p * toScalar (gridDraw g rng p))%Q)
          (seq 0 (Interval_getDimension (interval_ g))),
      gridState g rng (Interval_getDimension (interval_ g))).
Proof.
  unfold generateXBaseFromGrid.
  set (d := Interval_getDimension (interval_ g)).
  match goal with |- for_loop 0 d ?b ?a = _ =>
    destruct (for_loop_invariant
      (fun m (s : list Q * RandomState) =>
         s = (map (fun p => if p <? m
                            then (step_ g !!! p * toScalar (gridDraw g rng p))%Q
                            else 0%Q) (seq 0 d),
              gridState g rng m))
      0 d b a) as (s & Hloop & ->)
  end.
  - f_equal. apply list_eq. intros p. rewrite list_lookup_fmap.
    destruct (decide (p < d)) as [Hp|Hp].
    + by rewrite lookup_replicate_2, lookup_seq_lt by done.
    + rewrite lookup_seq_ge by lia. apply lookup_replicate_None. lia.
  - intros m s Hm ->. simpl.
    change (toUnsignedInteger (toDouble (1 + toDouble (1 / toDouble (step_ g !!! m)))))
      with (gridLevel g m).
    destruct (IntegerGenerate (gridLevel g m - 1) (gridState g rng m)) as [j rng1] eqn:Hj.
    eexists. split; [reflexivity|].
    assert (Hdraw : gridDraw g rng m = j) by (unfold gridDraw; by rewrite Hj).
    f_equal.
    apply list_eq. intros p.
    rewrite list_lookup_insert, !list_lookup_fmap, length_map, length_seq.
    destruct (decide (p < d)) as [Hp|Hp].
    + rewrite lookup_seq_lt by done. simpl.
      destruct (decide (m = p)) as [->|Hmp].
      * rewrite decide_True by done.
        destruct (Nat.ltb_spec p (S p)); [|lia]. by rewrite Hdraw.
      * rewrite decide_False by (intros [? _]; done).
        destruct (Nat.ltb_spec p m), (Nat.ltb_spec p (S m)); (done || lia).
    + rewrite lookup_seq_ge by lia. simpl. case_decide; [lia|done].
  - rewrite Hloop. do 2 f_equal.
    apply map_ext_in. intros p Hp%in_seq.
    destruct (Nat.ltb_spec p d); [done|lia].
Qed.

(** Both base-point strategies return normally. *)
Lemma trajectoryDraw_Ok g rng : exists t rng', trajectoryDraw g rng = Ok (t, rng').
Proof.
  unfold trajectoryDraw.
  destruct (0 <? getSize (experiment_ g)).
  - unfold generateXBaseFromLHS.
    destruct (IntegerGenerate _ rng) as [index rng1]. simpl.
    destruct (KPermutations_getRealization _ _ rng1) as [perm rng2].
    destruct (UserDefined_getSample _ _ rng2) as [dirs rng3]. eauto.
  - rewrite generateXBaseFromGrid_Ok. simpl.
    destruct (KPermutations_getRealization _ _ _) as [perm rng2].
    destruct (UserDefined_getSample _ _ rng2) as [dirs rng3]. eauto.
Qed.

Lemma drawn_snoc g rng draws rng1 t rng2 :
  drawn g rng draws rng1 ->
  trajectoryDraw g rng1 = Ok (t, rng2) ->
  drawn g rng (draws ++ [t]) rng2.
Proof.
  induction 1 as [rng|rng t0 rngm draws rng1 Ht0 Hrest IH]; intros Ht; simpl.
  - econstructor; [exact Ht|constructor].
  - econstructor; [exact Ht0|by apply IH].
Qed.

(** The innermost loop writes one column of one trajectory. *)
Lemma fill_column F size dimension base p count (f : nat -> Q) :
  for_loop 0 count (fun i realizations => Ok (set_entry realizations (base + i) p (f i)))
           (tabulate F size dimension) =
  Ok (tabulate (fun r c => if decide (c = p /\ base <= r < base + count)
                           then f (r - base) else F r c) size dimension).
Proof.
  match goal with |- for_loop 0 count ?b ?a = _ =>
    destruct (for_loop_invariant
      (fun m R => R = tabulate (fun r c => if decide (c = p /\ base <= r < base + m)
                                           then f (r - base) else F r c) size dimension)
      0 count b a) as (R & Hloop & ->)
  end.
  - apply tabulate_ext. intros r c _ _. rewrite decide_False by lia; reflexivity.
  - intros m R Hm ->. eexists. split; [reflexivity|].
    rewrite set_entry_tabulate. apply tabulate_ext. intros r c _ _. simpl.
    destruct (decide (r = base + m /\ c = p)) as [[-> ->]|Hne].
    + rewrite decide_True by lia. f_equal. lia.
    + destruct (decide (c = p /\ base <= r < base + m)) as [Hin|Hout].
      * rewrite decide_True by lia; reflexivity.
      * rewrite decide_False by lia; reflexivity.
  - exact Hloop.
Qed.

End GenerateLemmas.

Lemma for_loop_ext {A} start count (body1 body2 : nat -> A -> Result A) a :
  (forall j a, body1 j a = body2 j a) ->
  for_loop start count body1 a = for_loop start count body2 a.
Proof.
  intros Hext. revert start a.
  induction count as [|count IH]; intros start a; simpl; [done|].
  rewrite Hext. destruct (body2 start a); simpl; [apply IH|done].
Qed.

Section GenerateCorrect.
Context `{RandomGenerator}.

Lemma generate_unfold g rng :
  generate g rng =
  for_loop 0 (N_ g) (fun k '(realizations, rng) =>
    do '(t, rng) <- trajectoryDraw g rng ;;
    do realizations <- writeTrajectory g k t realizations ;;
    Ok (realizations, rng))
    (NumericalSample_new (N_ g * (length (step_ g) + 1)) (length (step_ g)), rng).
Proof.
  unfold generate. apply for_loop_ext. intros k [R st].
  unfold trajectoryDraw, writeTrajectory.
  destruct (if 0 <? getSize (experiment_ g)
            then generateXBaseFromLHS g st
            else generateXBaseFromGrid g st) as [[xB st1]|e]; simpl; [|done].
  destruct (KPermutations_getRealization _ _ st1) as [perm st2].
  destruct (UserDefined_getSample _ _ st2) as [dirs st3]. reflexivity.
Qed.

Lemma writeTrajectory_Ok g k t F size :
  writeTrajectory g k t (tabulate F size (length (step_ g))) =
  Ok (tabulate
        (fun r c =>
           if decide (c < length (step_ g) /\
                      k * (length (step_ g) + 1) <= r
                        < k * (length (step_ g) + 1) + (length (step_ g) + 1))
           then trajectoryEntry g t (r - k * (length (step_ g) + 1)) c
           else F r c)
        size (length (step_ g))).
Proof.
  unfold writeTrajectory.
  set (d := length (step_ g)). set (base := k * (d + 1)).
  match goal with |- for_loop 0 d ?b ?a = _ =>
    destruct (for_loop_invariant
      (fun m R => R = tabulate (fun r c =>
                        if decide (c < m /\ base <= r < base + (d + 1))
                        then trajectoryEntry g t (r - base) c
                        else F r c) size d)
      0 d b a) as (R & Hloop & ->)
  end.
  - apply tabulate_ext. intros r c _ _. rewrite decide_False by lia; reflexivity.
  - intros m R Hm ->. simpl.
    rewrite getOrientationMatrixColumn_Ok by done. fold d. simpl.
    rewrite (fill_column _ size d base m (d + 1)
               (fun i => realization
                           (point_sub (getUpperBound (interval_ g))
                                      (getLowerBound (interval_ g)))
                           (step_ g) (xBase t) (getLowerBound (interval_ g))
                           (directions t) (orientationColumn d m) m i)).
    eexists. split; [reflexivity|].
    apply tabulate_ext. intros r c _ _. simpl.
    destruct (decide (c = m /\ base <= r < base + (d + 1))) as [[-> Hr]|Hne].
    + rewrite decide_True by lia; reflexivity.
    + destruct (decide (c < m /\ base <= r < base + (d + 1))) as [Hin|Hout].
      * rewrite decide_True by lia; reflexivity.
      * rewrite decide_False by lia; reflexivity.
  - exact Hloop.
Qed.

(** [generate()] returns normally, and its sample is the table of the
    trajectories drawn in turn: row [k * (dimension + 1) + i] is point [i]
    of trajectory [k]. *)
Lemma generate_Ok g rng :
  exists F draws rng',
    generate g rng =
      Ok (tabulate F (N_ g * (length (step_ g) + 1)) (length (step_ g)), rng') /\
    drawn g rng draws rng' /\
    length draws = N_ g /\
    forall k t i p, draws !! k = Some t -> i <= length (step_ g) -> p < length (step_ g) ->
      F (k * (length (step_ g) + 1) + i) p = trajectoryEntry g t i p.
Proof.
  rewrite generate_unfold, NumericalSample_new_tabulate.
  set (d := length (step_ g)). set (size := N_ g * (d + 1)).
  match goal with |- context [for_loop 0 (N_ g) ?b ?a] =>
    destruct (for_loop_invariant
      (fun j (s : NumericalSample * RandomState) =>
         exists F draws,
           s.1 = tabulate F size d /\
           drawn g rng draws s.2 /\
           length draws = j /\
           forall k t i p, draws !! k = Some t -> i <= d -> p < d ->
             F (k * (d + 1) + i) p = trajectoryEntry g t i p)
      0 (N_ g) b a) as ([R rng'] & Hloop & F & draws & HR & Hdrawn & Hlen & HF)
  end.
  - exists (fun _ _ => 0%Q), []. simpl.
    split; [reflexivity|]. split; [constructor|]. split; [reflexivity|].
    intros k t i p Hk. by rewrite lookup_nil in Hk.
  - intros j [R st] Hj (F & draws & HR & Hdrawn & Hlen & HF). simpl in *. subst R.
    destruct (trajectoryDraw_Ok g st) as (t & st' & Ht). rewrite Ht. simpl.
    rewrite writeTrajectory_Ok. simpl.
    eexists. split; [reflexivity|]. simpl.
    eexists _, (draws ++ [t]). split; [reflexivity|].
    split; [by eapply drawn_snoc|].
    split; [rewrite length_app; simpl; lia|].
    intros k t' i p Hk Hi Hp. fold d.
    apply lookup_app_Some in Hk as [Hk|[Hk1 Hk2]].
    + pose proof (lookup_lt_Some _ _ _ Hk) as Hlt.
      rewrite decide_False by nia. by apply HF.
    + apply list_lookup_singleton_Some in Hk2 as [Hk2 ->].
      assert (k = j) as -> by lia.
      rewrite decide_True by lia. f_equal. lia.
  - simpl in *. subst R. exists F, draws, rng'. by rewrite Hloop.
Qed.

End GenerateCorrect.

(** ** The constructors *)

Lemma computeStep_cases levels :
  (exists step,
     computeStep levels (replicate (length levels) 0%Q) = Ok step /\
     (forall k, k < length levels -> 1 < levels !!! k) /\
     step = map stepOfLevel levels) \/
  (exists j,
     j < length levels /\ levels !!! j <= 1 /\
     computeStep levels (replicate (length levels) 0%Q) =
       Throw (InvalidArgumentException (LevelsShouldBeAtLeast2 j (levels !!! j)))).
Proof.
  unfold computeStep. set (n := length levels).
  match goal with |- context [for_loop 0 n ?b ?a] =>
    destruct (for_loop_cases
      (fun j step =>
         (forall k, k < j -> 1 < levels !!! k) /\
         step = map (fun k => if k <? j then stepOfLevel (levels !!! k) else 0%Q) (seq 0 n))
      (fun j e => levels !!! j <= 1 /\
                  e = InvalidArgumentException (LevelsShouldBeAtLeast2 j (levels !!! j)))
      0 n b a) as [(step & Hloop & Hall & ->)|(j & e & Hj & Hloop & Hbad & ->)]
  end.
  - split; [intros k Hk; lia|].
    apply list_eq. intros k. rewrite list_lookup_fmap.
    destruct (decide (k < n)) as [Hk|Hk].
    + by rewrite lookup_replicate_2, lookup_seq_lt by done.
    + rewrite lookup_seq_ge by lia. apply lookup_replicate_None. lia.
  - intros j step Hj [Hall ->]. simpl.
    destruct (Nat.leb_spec (levels !!! j) 1) as [Hbad|Hgood].
    + right. eexists. split; [reflexivity|]. by split.
    + left. eexists. split; [reflexivity|]. split.
      * intros k Hk. destruct (decide (k = j)) as [->|Hne]; [done|apply Hall; lia].
      * apply list_eq. intros k.
        rewrite list_lookup_insert, !list_lookup_fmap, length_map, length_seq.
        destruct (decide (k < n)) as [Hk|Hk].
        -- rewrite lookup_seq_lt by done. simpl.
           destruct (decide (j = k)) as [->|Hjk].
           ++ rewrite decide_True by done.
              destruct (Nat.ltb_spec k (S k)); [done|lia].
           ++ rewrite decide_False by (intros [? _]; done).
              destruct (Nat.ltb_spec k j), (Nat.ltb_spec k (S j)); (done || lia).
        -- rewrite lookup_seq_ge by lia. simpl. case_decide; [lia|done].
  - left. eexists. split; [exact Hloop|]. split; [exact Hall|].
    apply list_eq. intros k. rewrite !list_lookup_fmap.
    destruct (levels !! k) as [level|] eqn:Hk.
    + pose proof (lookup_lt_Some _ _ _ Hk) as Hlt. fold n in Hlt.
      rewrite lookup_seq_lt by done. simpl.
      destruct (Nat.ltb_spec k n); [|lia].
      by rewrite (list_lookup_total_correct _ _ _ Hk).
    + apply lookup_ge_None in Hk. fold n in Hk. by rewrite lookup_seq_ge by lia.
  - right. exists j. by rewrite Hloop.
Qed.

Lemma bind_Ok {A B} (m : Result A) (k : A -> Result B) b :
  bind m k = Ok b -> exists a, m = Ok a /\ k a = Ok b.
Proof. destruct m as [a|e]; simpl; [eauto|done]. Qed.

Lemma MorrisExperiment_levels_Ok levels N g :
  MorrisExperiment_levels levels N = Ok g ->
  (forall k, k < length levels -> 1 < levels !!! k) /\
  g = mkMorrisExperiment (Interval_unit (length levels)) NumericalSample_default
                         (map stepOfLevel levels) N.
Proof.
  unfold MorrisExperiment_levels. intros (step & Hstep & [= <-])%bind_Ok.
  destruct (computeStep_cases levels) as [(step' & Hs & Hall & ->)|(j & _ & _ & Hs)];
    rewrite Hs in Hstep; [|done].
  injection Hstep as <-. by split.
Qed.

Lemma MorrisExperiment_levels_interval_Ok levels interval N g :
  MorrisExperiment_levels_interval levels interval N = Ok g ->
  length levels = Interval_getDimension interval /\
  (forall k, k < length levels -> 1 < levels !!! k) /\
  g = mkMorrisExperiment interval NumericalSample_default (map stepOfLevel levels) N.
Proof.
  unfold MorrisExperiment_levels_interval.
  destruct (Nat.eqb_spec (length levels) (Interval_getDimension interval)) as [Hdim|Hdim];
    simpl; [|done].
  intros (step & Hstep & [= <-])%bind_Ok.
  destruct (computeStep_cases levels) as [(step' & Hs & Hall & ->)|(j & _ & _ & Hs)];
    rewrite Hs in Hstep; [|done].
  injection Hstep as <-. by repeat split.
Qed.

Lemma MorrisExperiment_lhs_interval_Ok lhsDesign interval N g :
  MorrisExperiment_lhs_interval lhsDesign interval N = Ok g ->
  sampleDimension lhsDesign = Interval_getDimension interval /\
  g = mkMorrisExperiment interval
        (sample_div (sample_sub lhsDesign (getLowerBound interval))
                    (point_sub (getUpperBound interval) (getLowerBound interval)))
        (replicate (sampleDimension lhsDesign) ((1 # 2) / toScalar (getSize lhsDesign))%Q) N.
Proof.
  unfold MorrisExperiment_lhs_interval.
  destruct (Nat.eqb_spec (sampleDimension lhsDesign) (Interval_getDimension interval))
    as [Hdim|Hdim]; simpl; [|done].
  intros [= <-]. by split.
Qed.

Lemma Qlt_bool_iff x y : Qlt_bool x y = true <-> (x < y)%Q.
Proof.
  unfold Qlt_bool. rewrite negb_true_iff.
  split.
  - intros Hb. apply Qnot_le_lt. intros Hle%Qle_bool_iff. congruence.
  - intros Hlt. destruct (Qle_bool y x) eqn:Hb; [|done].
    apply Qle_bool_iff in Hb. by apply Qlt_not_le in Hlt.
Qed.

(** Coordinate [k] of a fold of [op] over the points of a sample, for an
    operation [op] that selects one of its arguments as [Qmin] and [Qmax] do:
    a property [R] that passes through [op] holds of the result exactly when
    it holds of that coordinate of some point. *)
Lemma foldl_zip_with_lookup (op : Q -> Q -> Q) (R : Q -> Prop) d k rows acc :
  (forall x y, R (op x y) <-> R x \/ R y) ->
  length acc = d -> Forall (fun row => length row = d) rows -> k < d ->
  exists m, foldl (zip_with op) acc rows !! k = Some m /\
            (R m <-> (exists x, acc !! k = Some x /\ R x) \/
                     (exists row x, row ∈ rows /\ row !! k = Some x /\ R x)).
Proof.
  intros Hop Hacc Hrows Hk. revert acc Hacc.
  induction Hrows as [|row rows Hrow Hrows IH]; intros acc Hacc; simpl.
  - destruct (lookup_lt_is_Some_2 acc k) as [x Hx]; [lia|].
    exists x. split; [done|]. split.
    + intros HR. left. eauto.
    + intros [(x' & Hx' & HR)|(row & x' & Hin & _)]; [congruence|].
      by apply elem_of_nil in Hin.
  - destruct (IH (zip_with op acc row)) as (m & Hm & Hiff).
    { rewrite length_zip_with. lia. }
    exists m. split; [done|]. rewrite Hiff. clear Hiff Hm IH.
    destruct (lookup_lt_is_Some_2 acc k) as [a Ha]; [lia|].
    destruct (lookup_lt_is_Some_2 row k) as [b Hb]; [lia|].
    rewrite lookup_zip_with, Ha, Hb. simpl. split.
    + intros [(x & [= <-] & HR)|(row' & x & Hin & Hx & HR)].
      * apply Hop in HR as [HR|HR]; [left; eauto|].
        right. exists row, b. split; [apply list_elem_of_here|done].
      * right. exists row', x. split; [by apply list_elem_of_further|done].
    + intros [(x & [= <-] & HR)|(row' & x & Hin & Hx & HR)].
      * left. eexists. split; [done|]. apply Hop. by left.
      * apply elem_of_cons in Hin as [->|Hin].
        -- left. eexists. split; [done|]. apply Hop. right. congruence.
        -- right. eauto.
Qed.

Lemma foldl_zip_with_length (op : Q -> Q -> Q) d rows acc :
  length acc = d -> Forall (fun row => length row = d) rows ->
  length (foldl (zip_with op) acc rows) = d.
Proof.
  intros Hacc Hrows. revert acc Hacc.
  induction Hrows as [|row rows Hrow Hrows IH]; intros acc Hacc; simpl; [done|].
  apply IH. rewrite length_zip_with. lia.
Qed.

(** [MorrisExperiment(lhsDesign, N)] has three outcomes. *)
Lemma MorrisExperiment_lhs_cases lhsDesign N :
  wf_sample lhsDesign ->
  (sampleData lhsDesign = [] /\
   MorrisExperiment_lhs lhsDesign N = Throw (InternalException EmptySample)) \/
  (sampleData lhsDesign <> [] /\ ~ outsideUnitCube lhsDesign /\
   MorrisExperiment_lhs lhsDesign N =
     Ok (mkMorrisExperiment (Interval_unit (sampleDimension lhsDesign)) lhsDesign
           (replicate (sampleDimension lhsDesign) ((1 # 2) / toScalar (getSize lhsDesign))%Q)
           N)) \/
  (outsideUnitCube lhsDesign /\
   exists k xMin xMax,
     MorrisExperiment_lhs lhsDesign N =
       Throw (InvalidArgumentException (DesignNotInUnitCube k xMin xMax))).
Proof.
  intros Hwf. unfold MorrisExperiment_lhs, getMin, getMax, outsideUnitCube.
  unfold wf_sample in Hwf.
  destruct (sampleData lhsDesign) as [|row rows] eqn:Hdata; [left; by split|right].
  apply Forall_cons in Hwf as [Hrow Hrows].
  set (d := sampleDimension lhsDesign) in *.
  set (xMin := foldl (zip_with Qmin) row rows).
  set (xMax := foldl (zip_with Qmax) row rows).
  assert (HxMax : length xMax = d) by by apply foldl_zip_with_length.
  assert (Hlow : forall k, k < d ->
            ((xMin !!! k < 0)%Q <->
             exists r x, r ∈ row :: rows /\ r !! k = Some x /\ (x < 0)%Q)).
  { intros k Hk.
    destruct (foldl_zip_with_lookup Qmin (fun x => (x < 0)%Q) d k rows row)
      as (m & Hm & Hiff); [intros; apply Q.min_lt_iff|done..|].
    fold xMin in Hm. rewrite (list_lookup_total_correct _ _ _ Hm), Hiff. split.
    - intros [(x & Hx & Hlt)|(r & x & Hin & Hx & Hlt)].
      + exists row, x. split; [apply list_elem_of_here|done].
      + exists r, x. split; [by apply list_elem_of_further|done].
    - intros (r & x & Hin & Hx & Hlt).
      apply elem_of_cons in Hin as [->|Hin]; [left|right]; eauto. }
  assert (Hhigh : forall k, k < d ->
            ((1 < xMax !!! k)%Q <->
             exists r x, r ∈ row :: rows /\ r !! k = Some x /\ (1 < x)%Q)).
  { intros k Hk.
    destruct (foldl_zip_with_lookup Qmax (fun x => (1 < x)%Q) d k rows row)
      as (m & Hm & Hiff); [intros; apply Q.max_lt_iff|done..|].
    fold xMax in Hm. rewrite (list_lookup_total_correct _ _ _ Hm), Hiff. split.
    - intros [(x & Hx & Hlt)|(r & x & Hin & Hx & Hlt)].
      + exists row, x. split; [apply list_elem_of_here|done].
      + exists r, x. split; [by apply list_elem_of_further|done].
    - intros (r & x & Hin & Hx & Hlt).
      apply elem_of_cons in Hin as [->|Hin]; [left|right]; eauto. }
  simpl. rewrite HxMax.
  match goal with |- context [for_loop 0 d ?b ?a] =>
    destruct (for_loop_cases
      (fun j (_ : unit) => forall k, k < j -> ~ (xMin !!! k < 0)%Q /\ ~ (1 < xMax !!! k)%Q)
      (fun j e => ((xMin !!! j < 0)%Q \/ (1 < xMax !!! j)%Q) /\
                  e = InvalidArgumentException
                        (DesignNotInUnitCube j (xMin !!! j) (xMax !!! j)))
      0 d b a) as [([] & Hloop & Hall)|(j & e & Hj & Hloop & Hbad & ->)]
  end.
  - intros k Hk. lia.
  - intros j [] Hj Hall. simpl.
    destruct (Qlt_bool (xMin !!! j) 0) eqn:Hmin; simpl.
    { right. eexists. split; [reflexivity|]. split; [|done].
      left. by apply Qlt_bool_iff. }
    destruct (Qlt_bool 1 (xMax !!! j)) eqn:Hmax; simpl.
    { right. eexists. split; [reflexivity|]. split; [|done].
      right. by apply Qlt_bool_iff. }
    left. exists tt. split; [done|].
    intros k Hk. destruct (decide (k = j)) as [->|Hne]; [|apply Hall; lia].
    split; intros Hlt%Qlt_bool_iff; congruence.
  - left. split; [done|]. split; [|by rewrite Hloop].
    intros (r & k & x & Hin & Hx & Hout).
    assert (Hk : k < d).
    { apply lookup_lt_Some in Hx.
      apply elem_of_cons in Hin as [->|Hin]; [lia|].
      rewrite Forall_forall in Hrows. rewrite <- (Hrows r Hin). done. }
    destruct (Hall k Hk) as [Hnlow Hnhigh].
    destruct Hout as [Hlt|Hgt].
    + apply Hnlow, Hlow; [done|]. eauto.
    + apply Hnhigh, Hhigh; [done|]. eauto.
  - right. split; [|rewrite Hloop; simpl; eauto].
    destruct Hbad as [Hlt|Hgt].
    + apply Hlow in Hlt as (r & x & Hin & Hx & Hlt); [|done]. eauto 10.
    + apply Hhigh in Hgt as (r & x & Hin & Hx & Hgt); [|done]. eauto 10.
Qed.

(** ** What construction establishes *)

Lemma constructed_shape d N g :
  constructed d N g ->
  length (step_ g) = d /\ N_ g = N /\
  length (getLowerBound (interval_ g)) = d /\
  length (getUpperBound (interval_ g)) = d /\
  (forall row, row ∈ sampleData (experiment_ g) -> length row = d).
Proof.
  destruct 1 as [levels N g Hg|levels interval N g Hwf Hg|lhs N g Hwf Hg|lhs interval N g Hwf Hwfi Hg].
  - apply MorrisExperiment_levels_Ok in Hg as [_ ->]. simpl.
    rewrite length_map, !length_replicate. repeat split.
    intros row Hin. by apply elem_of_nil in Hin.
  - apply MorrisExperiment_levels_interval_Ok in Hg as (Hdim & _ & ->). simpl.
    unfold wf_interval, Interval_getDimension in *.
    rewrite length_map. repeat split; [congruence..|].
    intros row Hin. by apply elem_of_nil in Hin.
  - destruct (MorrisExperiment_lhs_cases lhs N Hwf)
      as [[_ He]|[(_ & _ & He)|(_ & k & a & b & He)]]; rewrite He in Hg; try done.
    injection Hg as <-. simpl. rewrite !length_replicate. repeat split.
    intros row Hin. unfold wf_sample in Hwf. rewrite Forall_forall in Hwf. by apply Hwf.
  - apply MorrisExperiment_lhs_interval_Ok in Hg as (Hdim & ->). simpl.
    unfold wf_interval, Interval_getDimension in *.
    rewrite length_replicate. repeat split; [congruence..|].
    intros row Hin.
    apply list_elem_of_fmap in Hin as (row1 & -> & Hin).
    apply list_elem_of_fmap in Hin as (row0 & -> & Hin).
    unfold wf_sample in Hwf. rewrite Forall_forall in Hwf. specialize (Hwf _ Hin).
    unfold point_sub. rewrite !length_zip_with. lia.
Qed.

Lemma delta_lookup (interval : Interval) d p :
  length (getLowerBound interval) = d -> length (getUpperBound interval) = d -> p < d ->
  point_sub (getUpperBound interval) (getLowerBound interval) !!! p =
  (getUpperBound interval !!! p - getLowerBound interval !!! p)%Q.
Proof.
  intros Hl Hu Hp. unfold point_sub.
  destruct (lookup_lt_is_Some_2 (getLowerBound interval) p) as [l Hlp]; [lia|].
  destruct (lookup_lt_is_Some_2 (getUpperBound interval) p) as [u Hup]; [lia|].
  rewrite (list_lookup_total_correct _ _ _ Hlp), (list_lookup_total_correct _ _ _ Hup).
  apply list_lookup_total_correct. by rewrite lookup_zip_with, Hup, Hlp.
Qed.

(** The flat data of a sample of points taken from [{(1), (-1)}]. *)
Lemma directions_data rows :
  Forall (fun point => point ∈ [[1%Q]; [(-1)%Q]]) rows ->
  length (concat rows) = length rows /\
  Forall (fun x => x = 1%Q \/ x = (-1)%Q) (concat rows).
Proof.
  induction 1 as [|row rows Hrow Hrows [IHlen IHall]]; simpl; [by split|].
  apply elem_of_cons in Hrow as [->|Hrow].
  - simpl. split; [lia|]. constructor; [by left|done].
  - apply list_elem_of_singleton in Hrow as ->.
    simpl. split; [lia|]. constructor; [by right|done].
Qed.

Section DrawShape.
Context `{RandomGenerator}.

(** Where the base point of a trajectory comes from. *)
Lemma trajectoryDraw_xBase g rng t rng' :
  trajectoryDraw g rng = Ok (t, rng') ->
  (0 < getSize (experiment_ g) /\
   exists index, index < getSize (experiment_ g) /\
                 sampleData (experiment_ g) !! index = Some (xBase t)) \/
  (getSize (experiment_ g) = 0 /\
   xBase t = map (fun p => (step_ g !!! p * toScalar (gridDraw g rng p))%Q)
                 (seq 0 (Interval_getDimension (interval_ g)))).
Proof.
  unfold trajectoryDraw.
  destruct (Nat.ltb_spec 0 (getSize (experiment_ g))) as [Hsize|Hsize].
  - unfold generateXBaseFromLHS.
    pose proof (IntegerGenerate_lt (getSize (experiment_ g)) rng Hsize) as Hlt.
    destruct (IntegerGenerate _ rng) as [index rng1]. simpl in *.
    destruct (KPermutations_getRealization _ _ rng1) as [perm rng2].
    destruct (UserDefined_getSample _ _ rng2) as [dirs rng3].
    intros [= <- <-]. left. split; [done|]. exists index. split; [done|]. simpl.
    by apply list_lookup_lookup_total_lt.
  - rewrite generateXBaseFromGrid_Ok. simpl.
    destruct (KPermutations_getRealization _ _ _) as [perm rng2].
    destruct (UserDefined_getSample _ _ rng2) as [dirs rng3].
    intros [= <- <-]. right. split; [lia|done].
Qed.

(** Every vector [generate()] indexes by a coordinate has the generator's
    dimension, and every direction is +1 or -1. *)
Lemma trajectoryDraw_shape d N g rng t rng' :
  constructed d N g ->
  trajectoryDraw g rng = Ok (t, rng') ->
  length (xBase t) = d /\ length (directions t) = d /\
  forall p, p < d -> directions t !!! p = 1%Q \/ directions t !!! p = (-1)%Q.
Proof.
  intros Hg Ht.
  destruct (constructed_shape d N g Hg) as (Hstep & _ & Hlow & _ & Hrows).
  split.
  { destruct (trajectoryDraw_xBase g rng t rng' Ht)
      as [(_ & index & _ & Hrow)|(_ & ->)].
    - apply Hrows. by eapply list_elem_of_lookup_2.
    - rewrite length_map, length_seq. exact Hlow. }
  revert Ht. unfold trajectoryDraw.
  destruct (if 0 <? getSize (experiment_ g)
            then generateXBaseFromLHS g rng
            else generateXBaseFromGrid g rng) as [[xB rng1]|e]; simpl; [|done].
  destruct (KPermutations_getRealization _ _ rng1) as [perm rng2].
  pose proof (UserDefined_size (mkSample 1 [[1%Q]; [(-1)%Q]]) (length (step_ g)) rng2)
    as Hsize.
  pose proof (UserDefined_support (mkSample 1 [[1%Q]; [(-1)%Q]]) (length (step_ g)) rng2)
    as Hsupport.
  destruct (UserDefined_getSample _ _ rng2) as [dirs rng3].
  intros [= <- <-]. simpl in *.
  destruct (directions_data (sampleData dirs)) as [Hlen Hall]; [by apply Hsupport|].
  unfold getData, getSize in *. split; [lia|].
  intros p Hp. rewrite Forall_forall in Hall. apply Hall.
  apply list_elem_of_lookup_total_2. lia.
Qed.

Lemma drawn_lookup g rng draws rng' k t :
  drawn g rng draws rng' -> draws !! k = Some t ->
  exists st st', trajectoryDraw g st = Ok (t, st').
Proof.
  intros Hdrawn. revert k.
  induction Hdrawn as [rng|rng t0 rng1 draws rng' Ht0 Hrest IH]; intros k Hk.
  - by rewrite lookup_nil in Hk.
  - destruct k as [|k]; simpl in Hk; [|by eapply IH].
    injection Hk as <-. eauto.
Qed.

End DrawShape.

(** The concrete generators are what the constructors return. *)
Lemma example_levels_constructed : constructed 2 1 example_levels.
Proof. apply (constructed_levels [3; 3] 1). reflexivity. Qed.

Lemma example_pool_constructed : constructed 1 2 example_pool.
Proof.
  apply (constructed_lhs (mkSample 1 [[1 # 4]; [1 # 2]]%Q) 2).
  - repeat constructor.
  - reflexivity.
Qed.

(** * Properties of the generator *)

(** ** The layout of the generated sample *)

(** C1. For a generator constructed with dimension [d] and trajectory count
    [N], [generate()] returns a sample of exactly [N * (d + 1)] points, each
    of dimension [d]; the points are grouped by trajectory, the trajectories
    in the order they were drawn, and row [k * (d + 1) + i] is point [i] of
    the walk of trajectory [k]. *)
Theorem generate_layout `{RandomGenerator} d N g rng :
  constructed d N g ->
  exists sample draws rng',
    generate g rng = Ok (sample, rng') /\
    getSize sample = N * (d + 1) /\
    sampleDimension sample = d /\
    wf_sample sample /\
    drawn g rng draws rng' /\
    length draws = N /\
    forall k t i, draws !! k = Some t -> i <= d ->
      sampleData sample !! (k * (d + 1) + i) = Some (trajectoryPoint g t i).
Proof.
  intros Hg. destruct (constructed_shape d N g Hg) as (Hd & HN & _).
  destruct (generate_Ok g rng) as (F & draws & rng' & Hgen & Hdrawn & Hlen & HF).
  rewrite Hd, HN in *.
  exists (tabulate F (N * (d + 1)) d), draws, rng'.
  split; [exact Hgen|]. split; [apply tabulate_size|]. split; [reflexivity|].
  split; [apply tabulate_wf|]. split; [exact Hdrawn|]. split; [exact Hlen|].
  intros k t i Hk Hi.
  pose proof (lookup_lt_Some _ _ _ Hk) as Hlt.
  rewrite tabulate_lookup by nia. f_equal.
  unfold trajectoryPoint. rewrite Hd.
  apply map_ext_in. intros p Hp%in_seq. apply (HF k t i p Hk Hi). lia.
Qed.

Lemma generate_layout_witness :
  constructed 2 1 example_levels /\
  exists sample draws rng',
    generate (H := Scripted.generator) example_levels [0; 1; 1; 0; 0; 0]
      = Ok (sample, rng') /\
    getSize sample = 1 * (2 + 1) /\
    sampleDimension sample = 2 /\
    wf_sample sample /\
    drawn (H := Scripted.generator) example_levels [0; 1; 1; 0; 0; 0] draws rng' /\
    length draws = 1 /\
    forall k t i, draws !! k = Some t -> i <= 2 ->
      sampleData sample !! (k * (2 + 1) + i) = Some (trajectoryPoint example_levels t i).
Proof.
  split; [exact example_levels_constructed|].
  exact (generate_layout (H := Scripted.generator) 2 1 example_levels
           [0; 1; 1; 0; 0; 0] example_levels_constructed).
Defined.

(** ** No exception after construction *)

(** C8. Once a constructor has returned, [generate()] returns normally from
    every generator state: both base-point strategies return, the column
    builder is only asked for columns below the dimension, where it returns,
    and every vector the trajectory loop indexes by a coordinate has the
    generator's dimension. *)
Theorem generate_never_throws `{RandomGenerator} d N g :
  constructed d N g ->
  (forall rng, exists sample rng', generate g rng = Ok (sample, rng')) /\
  (forall rng, exists xBase rng', generateXBaseFromLHS g rng = Ok (xBase, rng')) /\
  (forall rng, exists xBase rng', generateXBaseFromGrid g rng = Ok (xBase, rng')) /\
  (forall p, p < d -> exists column, getOrientationMatrixColumn g p = Ok column) /\
  length (step_ g) = d /\
  length (getLowerBound (interval_ g)) = d /\
  length (getUpperBound (interval_ g)) = d /\
  (forall rng t rng', trajectoryDraw g rng = Ok (t, rng') ->
     length (xBase t) = d /\ length (directions t) = d).
Proof.
  intros Hg. destruct (constructed_shape d N g Hg) as (Hd & HN & Hlow & Hup & _).
  split.
  { intros rng.
    destruct (generate_Ok g rng) as (F & draws & rng' & Hgen & _). eauto. }
  split.
  { intros rng. unfold generateXBaseFromLHS.
    destruct (IntegerGenerate _ rng) as [index rng1]. eauto. }
  split.
  { intros rng. rewrite generateXBaseFromGrid_Ok. eauto. }
  split.
  { intros p Hp. rewrite getOrientationMatrixColumn_Ok by lia. eauto. }
  repeat split; try done.
  - by destruct (trajectoryDraw_shape d N g rng t rng' Hg) as (? & ? & _).
  - by destruct (trajectoryDraw_shape d N g rng t rng' Hg) as (? & ? & _).
Qed.

Lemma generate_never_throws_witness :
  constructed 1 2 example_pool /\
  exists sample rng',
    generate (H := Scripted.generator) example_pool [1; 0; 1; 0; 0; 0] = Ok (sample, rng').
Proof.
  split; [exact example_pool_constructed|].
  exact (proj1 (generate_never_throws (H := Scripted.generator) 1 2 example_pool
                  example_pool_constructed) [1; 0; 1; 0; 0; 0]).
Defined.

(** ** The level constructors *)

(** C5, as the code has it.  [MorrisExperiment(levels, N)] fails with
    InvalidConfiguration exactly when some level is at most 1.
    [MorrisExperiment(levels, interval, N)] compares the sizes first: it fails
    with DimensionMismatch when they differ, and when they agree it fails
    with InvalidConfiguration exactly when some level is at most 1.  When
    either constructor returns, [step_[k] = 1 / (levels[k] - 1)] for every
    [k]. *)
Theorem level_constructors levels N :
  (failsWith (MorrisExperiment_levels levels N) InvalidConfiguration <->
   exists k level, levels !! k = Some level /\ level <= 1) /\
  (forall interval, length levels <> Interval_getDimension interval ->
     failsWith (MorrisExperiment_levels_interval levels interval N) DimensionMismatch) /\
  (forall interval, length levels = Interval_getDimension interval ->
     (failsWith (MorrisExperiment_levels_interval levels interval N) InvalidConfiguration <->
      exists k level, levels !! k = Some level /\ level <= 1)) /\
  (forall g, MorrisExperiment_levels levels N = Ok g ->
     length (step_ g) = length levels /\
     forall k level, levels !! k = Some level ->
       step_ g !! k = Some (1 / (toScalar level - 1))%Q) /\
  (forall interval g, MorrisExperiment_levels_interval levels interval N = Ok g ->
     length (step_ g) = length levels /\
     forall k level, levels !! k = Some level ->
       step_ g !! k = Some (1 / (toScalar level - 1))%Q).
Proof.
  assert (Hcases :
    (exists step, computeStep levels (replicate (length levels) 0%Q) = Ok step /\
                  ~ (exists k level, levels !! k = Some level /\ level <= 1)) \/
    (exists k v, computeStep levels (replicate (length levels) 0%Q) =
                   Throw (InvalidArgumentException (LevelsShouldBeAtLeast2 k v)) /\
                 exists k level, levels !! k = Some level /\ level <= 1)).
  { destruct (computeStep_cases levels) as [(step & Hs & Hall & _)|(j & Hj & Hbad & Hs)].
    - left. exists step. split; [done|]. intros (k & level & Hk & Hle).
      pose proof (lookup_lt_Some _ _ _ Hk) as Hlt. specialize (Hall k Hlt).
      rewrite (list_lookup_total_correct _ _ _ Hk) in Hall. lia.
    - right. exists j, (levels !!! j). split; [done|].
      exists j, (levels !!! j). split; [|done]. by apply list_lookup_lookup_total_lt. }
  assert (Hsteps : forall k level, levels !! k = Some level ->
            map stepOfLevel levels !! k = Some (1 / (toScalar level - 1))%Q).
  { intros k level Hk. by rewrite list_lookup_fmap, Hk. }
  split.
  { unfold MorrisExperiment_levels, failsWith.
    destruct Hcases as [(step & -> & Hnone)|(k & v & -> & Hsome)]; simpl.
    - split; [intros (e & [=] & _)|done].
    - split; [done|]. intros _. eexists. by split. }
  split.
  { intros interval Hdim. unfold MorrisExperiment_levels_interval, failsWith.
    destruct (Nat.eqb_spec (length levels) (Interval_getDimension interval)); [done|].
    simpl. eexists. by split. }
  split.
  { intros interval Hdim. unfold MorrisExperiment_levels_interval, failsWith.
    destruct (Nat.eqb_spec (length levels) (Interval_getDimension interval)); [|done].
    simpl.
    destruct Hcases as [(step & -> & Hnone)|(k & v & -> & Hsome)]; simpl.
    - split; [intros (e' & [=] & _)|done].
    - split; [done|]. intros _. eexists. by split. }
  split.
  - intros g (_ & ->)%MorrisExperiment_levels_Ok. simpl.
    split; [apply length_map|exact Hsteps].
  - intros interval g (_ & _ & ->)%MorrisExperiment_levels_interval_Ok. simpl.
    split; [apply length_map|exact Hsteps].
Qed.

(** C5 fails as stated for the constructor that takes an interval: with a
    level of 1 and an interval of another size it reports the sizes, not the
    level. *)
Lemma level_constructors_counterexample :
  ~ (failsWith (MorrisExperiment_levels_interval [1] (mkInterval [0; 0]%Q [1; 1]%Q) 1)
               InvalidConfiguration <->
     exists k level, [1] !! k = Some level /\ level <= 1).
Proof.
  intros [_ Hback].
  destruct Hback as (e & He & Hkind).
  - exists 0, 1. split; [reflexivity|lia].
  - vm_compute in He. injection He as <-. discriminate Hkind.
Qed.

(** ** The pool constructors *)

(** C6. [MorrisExperiment(lhsDesign, N)] fails with OutOfRangeInput exactly
    when some coordinate of some point of the pool lies outside [[0, 1]];
    when it returns, the pool is stored as it was given. *)
Theorem lhs_constructor_range_check lhsDesign N :
  wf_sample lhsDesign ->
  (failsWith (MorrisExperiment_lhs lhsDesign N) OutOfRangeInput <->
   outsideUnitCube lhsDesign) /\
  (forall g, MorrisExperiment_lhs lhsDesign N = Ok g -> experiment_ g = lhsDesign).
Proof.
  intros Hwf. unfold failsWith.
  destruct (MorrisExperiment_lhs_cases lhsDesign N Hwf)
    as [[Hempty ->]|[(_ & Hinside & ->)|(Houtside & k & a & b & ->)]].
  - split; [|done]. split.
    + intros (e & [= <-] & Hkind). done.
    + intros (row & _ & _ & Hin & _). rewrite Hempty in Hin. by apply elem_of_nil in Hin.
  - split; [|by intros g [= <-]]. split; [intros (e & [=] & _)|done].
  - split; [|done]. split; [done|]. intros _. eexists. by split.
Qed.

Lemma lhs_constructor_range_check_witness :
  wf_sample (mkSample 2 [[1 # 2; 1 # 2]; [1 # 4; 3 # 2]]%Q) /\
  (failsWith (MorrisExperiment_lhs (mkSample 2 [[1 # 2; 1 # 2]; [1 # 4; 3 # 2]]%Q) 1)
             OutOfRangeInput <->
   outsideUnitCube (mkSample 2 [[1 # 2; 1 # 2]; [1 # 4; 3 # 2]]%Q)) /\
  (forall g, MorrisExperiment_lhs (mkSample 2 [[1 # 2; 1 # 2]; [1 # 4; 3 # 2]]%Q) 1 = Ok g ->
             experiment_ g = mkSample 2 [[1 # 2; 1 # 2]; [1 # 4; 3 # 2]]%Q).
Proof.
  assert (Hwf : wf_sample (mkSample 2 [[1 # 2; 1 # 2]; [1 # 4; 3 # 2]]%Q))
    by repeat constructor.
  split; [exact Hwf|].
  exact (lhs_constructor_range_check _ 1 Hwf).
Defined.

(** A stored coordinate of the pool, after the two sample operations of
    [MorrisExperiment(lhsDesign, interval, N)]. *)
Lemma renormalized_lookup lhsDesign interval i k row x :
  wf_sample lhsDesign -> wf_interval interval ->
  sampleDimension lhsDesign = Interval_getDimension interval ->
  sampleData lhsDesign !! i = Some row -> row !! k = Some x ->
  exists stored,
    sampleData (sample_div (sample_sub lhsDesign (getLowerBound interval))
                           (point_sub (getUpperBound interval) (getLowerBound interval)))
      !! i = Some stored /\
    stored !! k = Some ((x - getLowerBound interval !!! k) /
                        (getUpperBound interval !!! k - getLowerBound interval !!! k))%Q.
Proof.
  intros Hwf Hwfi Hdim Hrow Hx.
  unfold wf_sample in Hwf. rewrite Forall_forall in Hwf.
  pose proof (Hwf row (list_elem_of_lookup_2 _ _ _ Hrow)) as Hlen.
  pose proof (lookup_lt_Some _ _ _ Hx) as Hk.
  unfold wf_interval, Interval_getDimension in *.
  destruct (lookup_lt_is_Some_2 (getLowerBound interval) k) as [l Hl]; [lia|].
  destruct (lookup_lt_is_Some_2 (getUpperBound interval) k) as [u Hu]; [lia|].
  eexists. split.
  - simpl. rewrite !list_lookup_fmap, Hrow. reflexivity.
  - unfold point_sub. rewrite !lookup_zip_with, Hx, Hl, Hu. simpl.
    by rewrite (list_lookup_total_correct _ _ _ Hl), (list_lookup_total_correct _ _ _ Hu).
Qed.

(** C7. [MorrisExperiment(lhsDesign, interval, N)] returns only when the pool
    and the interval have the same dimension; it then stores every pool
    coordinate [x] of dimension [k] as
    [(x - lowerBound[k]) / (upperBound[k] - lowerBound[k])], and a later
    [generateXBaseFromLHS()] returns the stored point at the index it draws
    as it stands. *)
Theorem lhs_interval_constructor_renormalizes `{RandomGenerator} lhsDesign interval N g :
  wf_sample lhsDesign -> wf_interval interval ->
  MorrisExperiment_lhs_interval lhsDesign interval N = Ok g ->
  sampleDimension lhsDesign = Interval_getDimension interval /\
  getSize (experiment_ g) = getSize lhsDesign /\
  (forall i k row x, sampleData lhsDesign !! i = Some row -> row !! k = Some x ->
     exists stored,
       sampleData (experiment_ g) !! i = Some stored /\
       stored !! k = Some ((x - getLowerBound interval !!! k) /
                           (getUpperBound interval !!! k - getLowerBound interval !!! k))%Q) /\
  (forall rng, exists index rng',
     IntegerGenerate (getSize lhsDesign) rng = (index, rng') /\
     generateXBaseFromLHS g rng = Ok (sampleData (experiment_ g) !!! index, rng') /\
     (0 < getSize lhsDesign ->
      sampleData (experiment_ g) !! index = Some (sampleData (experiment_ g) !!! index))).
Proof.
  intros Hwf Hwfi (Hdim & ->)%MorrisExperiment_lhs_interval_Ok.
  assert (Hsize : getSize (sample_div (sample_sub lhsDesign (getLowerBound interval))
                    (point_sub (getUpperBound interval) (getLowerBound interval)))
                  = getSize lhsDesign).
  { unfold getSize. simpl. by rewrite !length_map. }
  split; [exact Hdim|]. split; [exact Hsize|]. split.
  - intros i k row x Hrow Hx. simpl experiment_.
    by apply (renormalized_lookup lhsDesign interval i k row x).
  - intros rng. unfold generateXBaseFromLHS. simpl experiment_. rewrite Hsize.
    pose proof (IntegerGenerate_lt (getSize lhsDesign) rng) as Hlt.
    destruct (IntegerGenerate (getSize lhsDesign) rng) as [index rng']. simpl in Hlt.
    exists index, rng'. split; [done|]. split; [done|].
    intros Hpos. apply list_lookup_lookup_total_lt.
    fold (getSize (sample_div (sample_sub lhsDesign (getLowerBound interval))
            (point_sub (getUpperBound interval) (getLowerBound interval)))).
    rewrite Hsize. by apply Hlt.
Qed.

Lemma lhs_interval_constructor_renormalizes_witness :
  wf_sample (mkSample 1 [[1%Q]; [3 # 2]%Q]) /\
  wf_interval (mkInterval [1%Q] [3%Q]) /\
  MorrisExperiment_lhs_interval (mkSample 1 [[1%Q]; [3 # 2]%Q]) (mkInterval [1%Q] [3%Q]) 1 =
    Ok (mkMorrisExperiment (mkInterval [1%Q] [3%Q]) (mkSample 1 [[0 # 2]; [1 # 4]]%Q)
                           [1 # 4]%Q 1) /\
  forall rng : list nat, exists index rng',
    IntegerGenerate (RandomGenerator := Scripted.generator) 2 rng = (index, rng') /\
    generateXBaseFromLHS (H := Scripted.generator)
      (mkMorrisExperiment (mkInterval [1%Q] [3%Q]) (mkSample 1 [[0 # 2]; [1 # 4]]%Q)
                          [1 # 4]%Q 1) rng =
      Ok ([[0 # 2]; [1 # 4]]%Q !!! index, rng') /\
    (0 < 2 -> [[0 # 2]; [1 # 4]]%Q !! index = Some ([[0 # 2]; [1 # 4]]%Q !!! index)).
Proof.
  assert (Hwf : wf_sample (mkSample 1 [[1%Q]; [3 # 2]%Q])) by repeat constructor.
  assert (Hwfi : wf_interval (mkInterval [1%Q] [3%Q])) by reflexivity.
  split; [exact Hwf|]. split; [exact Hwfi|]. split; [reflexivity|].
  exact (proj2 (proj2 (proj2
    (lhs_interval_constructor_renormalizes (H := Scripted.generator)
       _ _ 1 _ Hwf Hwfi eq_refl)))).
Defined.

(** C10. [MorrisExperiment(lhsDesign, interval, N)] never fails with
    OutOfRangeInput, and returns for every pool whose dimension is the
    interval's; a pool coordinate outside [[lowerBound[k], upperBound[k]]]
    then gives a stored coordinate outside [[0, 1]]. *)
Theorem lhs_interval_constructor_no_range_check lhsDesign interval N :
  ~ failsWith (MorrisExperiment_lhs_interval lhsDesign interval N) OutOfRangeInput /\
  (wf_sample lhsDesign -> wf_interval interval ->
   sampleDimension lhsDesign = Interval_getDimension interval ->
   exists g,
     MorrisExperiment_lhs_interval lhsDesign interval N = Ok g /\
     forall i k row x, sampleData lhsDesign !! i = Some row -> row !! k = Some x ->
       (getLowerBound interval !!! k < getUpperBound interval !!! k)%Q ->
       (x < getLowerBound interval !!! k \/ getUpperBound interval !!! k < x)%Q ->
       exists stored y,
         sampleData (experiment_ g) !! i = Some stored /\ stored !! k = Some y /\
         (y < 0 \/ 1 < y)%Q).
Proof.
  split.
  { unfold failsWith, MorrisExperiment_lhs_interval.
    destruct (sampleDimension lhsDesign =? Interval_getDimension interval); simpl.
    - intros (e & [=] & _).
    - intros (e & [= <-] & Hkind). done. }
  intros Hwf Hwfi Hdim.
  unfold MorrisExperiment_lhs_interval.
  destruct (Nat.eqb_spec (sampleDimension lhsDesign) (Interval_getDimension interval));
    [|done].
  simpl. eexists. split; [reflexivity|].
  intros i k row x Hrow Hx Hbounds Hout. simpl experiment_.
  destruct (renormalized_lookup lhsDesign interval i k row x) as (stored & Hs & Hk);
    [done..|].
  exists stored. eexists. split; [exact Hs|]. split; [exact Hk|].
  set (l := getLowerBound interval !!! k) in *.
  set (u := getUpperBound interval !!! k) in *.
  assert (Hpos : (0 < u - l)%Q) by lra.
  destruct Hout as [Hlow|Hhigh].
  - left. apply Qlt_shift_div_r; [exact Hpos|lra].
  - right. apply Qlt_shift_div_l; [exact Hpos|lra].
Qed.

Lemma lhs_interval_constructor_no_range_check_witness :
  wf_sample (mkSample 1 [[3%Q]]) /\ wf_interval (mkInterval [0%Q] [2%Q]) /\
  exists g,
    MorrisExperiment_lhs_interval (mkSample 1 [[3%Q]]) (mkInterval [0%Q] [2%Q]) 1 = Ok g /\
    forall i k row x, [[3%Q]] !! i = Some row -> row !! k = Some x ->
      ([0%Q] !!! k < [2%Q] !!! k)%Q ->
      (x < [0%Q] !!! k \/ [2%Q] !!! k < x)%Q ->
      exists stored y,
        sampleData (experiment_ g) !! i = Some stored /\ stored !! k = Some y /\
        (y < 0 \/ 1 < y)%Q.
Proof.
  assert (Hwf : wf_sample (mkSample 1 [[3%Q]])) by repeat constructor.
  assert (Hwfi : wf_interval (mkInterval [0%Q] [2%Q])) by reflexivity.
  split; [exact Hwf|]. split; [exact Hwfi|].
  exact (proj2 (lhs_interval_constructor_no_range_check
                  (mkSample 1 [[3%Q]]) (mkInterval [0%Q] [2%Q]) 1) Hwf Hwfi eq_refl).
Defined.

(** ** Scalars and levels *)

Lemma toScalar_le a b : a <= b -> (toScalar a <= toScalar b)%Q.
Proof. intros Hab. unfold toScalar. rewrite <- Zle_Qle. lia. Qed.

Lemma toScalar_nonneg a : (0 <= toScalar a)%Q.
Proof. apply (toScalar_le 0 a). lia. Qed.

Lemma toScalar_gt_1 level : 1 < level -> (1 < toScalar level)%Q.
Proof.
  intros Hl. pose proof (toScalar_le 2 level Hl) as Hle.
  change (toScalar 2) with 2%Q in Hle. lra.
Qed.

Lemma stepOfLevel_pos level : 1 < level -> (0 < stepOfLevel level)%Q.
Proof.
  intros Hl. pose proof (toScalar_gt_1 level Hl) as Hgt.
  unfold stepOfLevel. apply Qlt_shift_div_l; lra.
Qed.

Lemma stepOfLevel_le_1 level : 1 < level -> (stepOfLevel level <= 1)%Q.
Proof.
  intros Hl. pose proof (toScalar_le 2 level Hl) as Hle.
  change (toScalar 2) with 2%Q in Hle.
  unfold stepOfLevel. apply Qle_shift_div_r; lra.
Qed.

Lemma poolStep_le_1 size : 0 < size -> ((1 # 2) / toScalar size <= 1)%Q.
Proof.
  intros Hsize. pose proof (toScalar_le 1 size Hsize) as Hle.
  change (toScalar 1) with 1%Q in Hle.
  apply Qle_shift_div_r; lra.
Qed.

Lemma stepOfLevel_reciprocal level :
  1 < level -> (1 / stepOfLevel level == toScalar (level - 1))%Q.
Proof.
  intros Hl. pose proof (toScalar_gt_1 level Hl) as Hgt.
  assert (E : (toScalar (level - 1) == toScalar level - 1)%Q).
  { unfold toScalar. rewrite Nat2Z.inj_sub by lia.
    unfold Z.sub. by rewrite inject_Z_plus, inject_Z_opp. }
  rewrite E. unfold stepOfLevel. field. lra.
Qed.

Lemma toScalar_lt_inv a b : (toScalar a < toScalar b)%Q -> a < b.
Proof. unfold toScalar. rewrite <- Zlt_Qlt. lia. Qed.

(** ** Double precision *)

(** Powers of two. *)
Lemma Qpower2_pos (z : Z) : (0 < 2 ^ z)%Q.
Proof. apply Qpower_0_lt. reflexivity. Qed.

Lemma Qpower2_inject (z : Z) : (0 <= z)%Z -> (inject_Z (2 ^ z) == 2 ^ z)%Q.
Proof. intros Hz. apply (Zpower_Qpower 2 z Hz). Qed.

Lemma Qpower2_split (a b c : Z) : (a + b = c)%Z -> (2 ^ c == 2 ^ a * 2 ^ b)%Q.
Proof. intros <-. apply Qpower_plus. discriminate. Qed.

Lemma Qinv_le_anti (a b : Q) : (0 < a)%Q -> (a <= b)%Q -> (/ b <= / a)%Q.
Proof.
  intros Ha Hab. apply Qle_lteq in Hab as [Hlt | Heq].
  - apply Qlt_le_weak.
    exact (proj1 (Qinv_lt_contravar a b Ha (Qlt_trans _ _ _ Ha Hlt)) Hlt).
  - rewrite Heq. apply Qle_refl.
Qed.

(** [binade x] is the exponent of the binade of [x]. *)
Lemma binade_spec (x : Q) :
  (0 < x)%Q -> (2 ^ binade x <= x)%Q /\ (x < 2 ^ (binade x + 1))%Q.
Proof.
  intros Hx. unfold binade.
  destruct (Qle_bool 1 x) eqn:Hone.
  - apply Qle_bool_iff in Hone.
    assert (Hf : (1 <= Qfloor x)%Z).
    { change 1%Z with (Qfloor 1). by apply Qfloor_resp_le. }
    destruct (Z.log2_spec (Qfloor x)) as [Hlo Hhi]; [lia|].
    pose proof (Z.log2_nonneg (Qfloor x)) as He.
    split.
    + rewrite <- Qpower2_inject by done.
      eapply Qle_trans; [|apply Qfloor_le].
      rewrite <- Zle_Qle. exact Hlo.
    + rewrite <- Qpower2_inject by lia.
      eapply Qlt_le_trans; [apply Qlt_floor|].
      rewrite <- Zle_Qle. rewrite <- Z.add_1_r in Hhi. lia.
  - assert (Hlt : (x < 1)%Q).
    { apply Qnot_le_lt. intros Hle. apply Qle_bool_iff in Hle. congruence. }
    assert (Hy : (1 < / x)%Q).
    { exact (proj1 (Qinv_lt_contravar x 1 Hx eq_refl) Hlt). }
    assert (Hc : (1 < Qceiling (/ x))%Z).
    { rewrite Zlt_Qlt. eapply Qlt_le_trans; [exact Hy|apply Qle_ceiling]. }
    destruct (Z.log2_up_spec (Qceiling (/ x)) Hc) as [Hlo Hhi].
    assert (Hk : (0 < Z.log2_up (Qceiling (/ x)))%Z) by (apply Z.log2_up_pos; lia).
    set (k := Z.log2_up (Qceiling (/ x))) in *.
    assert (Hyk : (/ x <= 2 ^ k)%Q).
    { eapply Qle_trans; [apply Qle_ceiling|].
      rewrite <- Qpower2_inject by lia. rewrite <- Zle_Qle. exact Hhi. }
    assert (Hky : (2 ^ (k - 1) < / x)%Q).
    { eapply Qle_lt_trans; [|apply Qceiling_lt].
      rewrite <- Qpower2_inject by lia. rewrite <- Zle_Qle.
      replace (Z.pred k) with (k - 1)%Z in Hlo by lia. lia. }
    split.
    + rewrite Qpower_opp.
      pose proof (Qinv_le_anti _ _ (Qinv_lt_0_compat _ Hx) Hyk) as Hle.
      by rewrite Qinv_involutive in Hle.
    + replace (- k + 1)%Z with (- (k - 1))%Z by lia.
      rewrite Qpower_opp.
      pose proof (proj1 (Qinv_lt_contravar _ _ (Qpower2_pos (k - 1)) (Qinv_lt_0_compat _ Hx)) Hky)
        as Hle.
      by rewrite Qinv_involutive in Hle.
Qed.

(** Rounding to the nearest integer goes down or up by at most one half,
    and does not cross an integer. *)
Lemma roundHalfEven_cases (y : Q) :
  roundHalfEven y = Qfloor y /\ (y - inject_Z (Qfloor y) <= 1 # 2)%Q
  \/ roundHalfEven y = (Qfloor y + 1)%Z /\ (1 # 2 <= y - inject_Z (Qfloor y))%Q.
Proof.
  unfold roundHalfEven.
  destruct (y - inject_Z (Qfloor y) ?= 1 # 2)%Q eqn:Hcmp.
  - apply Qeq_alt in Hcmp.
    destruct (Z.even (Qfloor y)); [left | right]; (split; [done|]); rewrite Hcmp; apply Qle_refl.
  - apply Qlt_alt in Hcmp. left. split; [done|]. by apply Qlt_le_weak.
  - apply Qgt_alt in Hcmp. right. split; [done|]. by apply Qlt_le_weak.
Qed.

Lemma roundHalfEven_near (y : Q) :
  (y - (1 # 2) <= inject_Z (roundHalfEven y))%Q /\ (inject_Z (roundHalfEven y) <= y + (1 # 2))%Q.
Proof.
  pose proof (Qfloor_le y) as Hlo. pose proof (Qlt_floor y) as Hhi.
  rewrite inject_Z_plus in Hhi. change (inject_Z 1) with 1%Q in Hhi.
  destruct (roundHalfEven_cases y) as [[-> Hr] | [-> Hr]].
  - split; lra.
  - rewrite inject_Z_plus. change (inject_Z 1) with 1%Q. split; lra.
Qed.

Lemma roundHalfEven_ge (y : Q) (n : Z) :
  (inject_Z n <= y)%Q -> (n <= roundHalfEven y)%Z.
Proof.
  intros Hn. apply Qfloor_resp_le in Hn. rewrite Qfloor_Z in Hn.
  destruct (roundHalfEven_cases y) as [[-> _] | [-> _]]; lia.
Qed.

Lemma roundHalfEven_le (y : Q) (n : Z) :
  (y <= inject_Z n)%Q -> (roundHalfEven y <= n)%Z.
Proof.
  intros Hn. pose proof (Qfloor_resp_le _ _ Hn) as Hf. rewrite Qfloor_Z in Hf.
  destruct (roundHalfEven_cases y) as [[-> _] | [-> Hr]]; [done|].
  assert (Hlt : (inject_Z (Qfloor y) < inject_Z n)%Q).
  { eapply Qlt_le_trans; [|exact Hn]. lra. }
  rewrite <- Zlt_Qlt in Hlt. lia.
Qed.

(** The scaled value that [roundPositive] rounds to an integer has 53 bits. *)
Lemma significand_range (x : Q) :
  (0 < x)%Q ->
  (inject_Z (2 ^ 52) <= x * 2 ^ (52 - binade x))%Q
  /\ (x * 2 ^ (52 - binade x) < inject_Z (2 ^ 53))%Q.
Proof.
  intros Hx. destruct (binade_spec x Hx) as [Hlo Hhi].
  pose proof (Qpower2_pos (52 - binade x)) as Hp.
  rewrite !Qpower2_inject by lia. split.
  - rewrite (Qpower2_split (binade x) (52 - binade x) 52) by lia.
    by apply Qmult_le_compat_r; [|apply Qlt_le_weak].
  - rewrite (Qpower2_split (binade x + 1) (52 - binade x) 53) by lia.
    by apply Qmult_lt_compat_r.
Qed.

Lemma unscale (x : Q) (e : Z) : (x * 2 ^ (52 - e) * 2 ^ (e - 52) == x)%Q.
Proof.
  rewrite <- Qmult_assoc, <- (Qpower2_split (52 - e) (e - 52) 0) by lia. simpl. ring.
Qed.

Lemma roundPositive_pos (x : Q) : (0 < x)%Q -> (0 < roundPositive x)%Q.
Proof.
  intros Hx. unfold roundPositive.
  destruct (significand_range x Hx) as [Hlo _].
  apply roundHalfEven_ge in Hlo.
  apply Qmult_lt_0_compat; [|apply Qpower2_pos].
  change 0%Q with (inject_Z 0). rewrite <- Zlt_Qlt. lia.
Qed.

(** Rounding is within half a unit in the last place: a relative error of at
    most [2^-53]. *)
Lemma roundPositive_near (x : Q) :
  (0 < x)%Q ->
  (x * (1 - (1 # 2 ^ 53)) <= roundPositive x)%Q /\ (roundPositive x <= x * (1 + (1 # 2 ^ 53)))%Q.
Proof.
  intros Hx. unfold roundPositive.
  destruct (significand_range x Hx) as [Hlo _].
  destruct (roundHalfEven_near (x * 2 ^ (52 - binade x))) as [Hm1 Hm2].
  pose proof (unscale x (binade x)) as Hx'.
  pose proof (Qpower2_pos (binade x - 52)) as Hp.
  set (y := (x * 2 ^ (52 - binade x))%Q) in *.
  set (m := inject_Z (roundHalfEven y)) in *.
  set (r := (2 ^ (binade x - 52))%Q) in *.
  assert (Hy : (1 # 2 <= y * (1 # 2 ^ 53))%Q).
  { change (inject_Z (2 ^ 52)) with (4503599627370496 # 1)%Q in Hlo.
    change (1 # 2 ^ 53)%Q with (1 # 9007199254740992)%Q. lra. }
  split.
  - rewrite <- Hx' at 1.
    assert (E : (y * r * (1 - (1 # 2 ^ 53)) == (y - y * (1 # 2 ^ 53)) * r)%Q) by ring.
    rewrite E.
    apply Qmult_le_compat_r; [lra | by apply Qlt_le_weak].
  - rewrite <- Hx'.
    assert (E : (y * r * (1 + (1 # 2 ^ 53)) == (y + y * (1 # 2 ^ 53)) * r)%Q) by ring.
    rewrite E.
    apply Qmult_le_compat_r; [lra | by apply Qlt_le_weak].
Qed.

(** Rounding does not cross a power of two. *)
Lemma roundPositive_ge_power (x : Q) (k : Z) :
  (2 ^ k <= x)%Q -> (2 ^ k <= roundPositive x)%Q.
Proof.
  intros Hk.
  assert (Hx : (0 < x)%Q) by (eapply Qlt_le_trans; [apply (Qpower2_pos k)|done]).
  destruct (binade_spec x Hx) as [_ Hhi].
  assert (He : (k <= binade x)%Z).
  { assert (Hlt : (2 ^ k < 2 ^ (binade x + 1))%Q) by (eapply Qle_lt_trans; done).
    apply Qpower_lt_compat_l_inv in Hlt; [lia | reflexivity]. }
  destruct (significand_range x Hx) as [Hlo _].
  apply roundHalfEven_ge in Hlo. unfold roundPositive.
  eapply Qle_trans; [apply (Qpower_le_compat_l 2 k (binade x) He); discriminate|].
  rewrite (Qpower2_split 52 (binade x - 52) (binade x)) by lia.
  rewrite <- (Qpower2_inject 52) by lia.
  apply Qmult_le_compat_r; [|apply Qlt_le_weak, Qpower2_pos].
  by rewrite <- Zle_Qle.
Qed.

Lemma roundPositive_le_power (x : Q) (k : Z) :
  (0 < x)%Q -> (x <= 2 ^ k)%Q -> (roundPositive x <= 2 ^ k)%Q.
Proof.
  intros Hx Hk.
  destruct (binade_spec x Hx) as [Hlo _].
  assert (He : (binade x <= k)%Z).
  { apply (Qpower_le_compat_l_inv 2); [by eapply Qle_trans | reflexivity]. }
  unfold roundPositive.
  rewrite (Qpower2_split 52 (k - 52) k) by lia.
  destruct (Z.eq_dec (binade x) k) as [Heq | Hne].
  - rewrite Heq. rewrite <- (Qpower2_inject 52) by lia.
    apply Qmult_le_compat_r; [|apply Qlt_le_weak, Qpower2_pos].
    rewrite <- Zle_Qle. apply roundHalfEven_le.
    rewrite (Qpower2_inject 52) by lia.
    rewrite (Qpower2_split k (52 - k) 52) by lia.
    apply Qmult_le_compat_r; [done|apply Qlt_le_weak, Qpower2_pos].
  - destruct (significand_range x Hx) as [_ Hhi].
    apply Qlt_le_weak, roundHalfEven_le in Hhi.
    eapply Qle_trans.
    { apply Qmult_le_compat_r; [|apply Qlt_le_weak, Qpower2_pos].
      rewrite <- Zle_Qle. exact Hhi. }
    rewrite (Qpower2_inject 53) by lia.
    rewrite <- (Qpower2_split 53 (binade x - 52) (binade x + 1)) by lia.
    rewrite <- (Qpower2_split 52 (k - 52) k) by lia.
    apply Qpower_le_compat_l; [lia | discriminate].
Qed.

(** What rounding does to the generated values.  For 183 levels the double
    sum of the step and of the base coordinate of index 181 is above 1; on
    the interval [[10^17, 10^17 + 16]] the stepped value [16 * 0.5 + 10^17]
    of a generator of 3 levels rounds back to the base value [10^17]. *)
Remark double_sum_above_1 :
  (1 < toDouble (toDouble (stepOfLevel 183)
                 + toDouble (toDouble (stepOfLevel 183) * toScalar 181)))%Q.
Proof. by vm_compute. Qed.

Remark double_sum_absorbs_step :
  (toDouble (16 * stepOfLevel 3 + 100000000000000000) == 100000000000000000)%Q.
Proof. by vm_compute. Qed.

(** ** The level cast from a step *)

Lemma toDouble_positive (x : Q) : (0 < x)%Q -> toDouble x = roundPositive x.
Proof. intros Hx. unfold toDouble. apply Qgt_alt in Hx. by rewrite Hx. Qed.

Lemma toDouble_pos (x : Q) : (0 < x)%Q -> (0 < toDouble x)%Q.
Proof. intros Hx. rewrite toDouble_positive by done. by apply roundPositive_pos. Qed.

Lemma toDouble_ge_1 (x : Q) : (1 <= x)%Q -> (1 <= toDouble x)%Q.
Proof.
  intros Hx. rewrite toDouble_positive by lra.
  by apply (roundPositive_ge_power x 0).
Qed.

Lemma toDouble_ge_2 (x : Q) : (2 <= x)%Q -> (2 <= toDouble x)%Q.
Proof.
  intros Hx. rewrite toDouble_positive by lra.
  by apply (roundPositive_ge_power x 1).
Qed.

Lemma toDouble_le_1 (x : Q) : (0 < x)%Q -> (x <= 1)%Q -> (toDouble x <= 1)%Q.
Proof.
  intros Hx Hx1. rewrite toDouble_positive by done.
  by apply (roundPositive_le_power x 0).
Qed.

Lemma toUnsignedInteger_ge (x : Q) (n : nat) :
  (toScalar n <= x)%Q -> n <= toUnsignedInteger x.
Proof.
  intros Hn. apply Qfloor_resp_le in Hn. unfold toScalar in Hn. rewrite Qfloor_Z in Hn.
  unfold toUnsignedInteger. lia.
Qed.

Lemma toUnsignedInteger_le (x : Q) : (0 <= x)%Q -> (toScalar (toUnsignedInteger x) <= x)%Q.
Proof.
  intros Hx. unfold toScalar, toUnsignedInteger.
  assert (0 <= Qfloor x)%Z.
  { change 0%Z with (Qfloor 0). by apply Qfloor_resp_le. }
  rewrite Z2Nat.id by done. apply Qfloor_le.
Qed.

(** The level the code computes from a step in (0, 1] is at least 2. *)
Lemma levelOfStep_ge_2 (step : Q) :
  (0 < step)%Q -> (step <= 1)%Q -> 2 <= levelOfStep step.
Proof.
  intros Hpos Hle. unfold levelOfStep.
  pose proof (toDouble_pos step Hpos) as Hd.
  pose proof (toDouble_le_1 step Hpos Hle) as Hd1.
  assert (Hq : (1 <= 1 / toDouble step)%Q).
  { apply Qle_shift_div_l; [done|lra]. }
  apply toDouble_ge_1 in Hq.
  apply (toUnsignedInteger_ge _ 2). apply toDouble_ge_2.
  change (toScalar 2) with 2%Q. lra.
Qed.

(** It exceeds [1 + 1 / step] by less than one, for steps of at least
    [2^-51]: the three roundings add up to a relative error below [2^-51]. *)
Lemma levelOfStep_lt (step : Q) :
  (1 # 2 ^ 51 <= step)%Q -> (toScalar (levelOfStep step) < 2 + 1 / step)%Q.
Proof.
  intros Hstep.
  assert (Hpos : (0 < step)%Q) by (eapply Qlt_le_trans; [|exact Hstep]; reflexivity).
  pose proof (toDouble_pos step Hpos) as Hd.
  destruct (roundPositive_near step Hpos) as [Hd1 _].
  rewrite <- toDouble_positive in Hd1 by done.
  assert (Hq0 : (0 < 1 / toDouble step)%Q).
  { apply Qlt_shift_div_l; [done|lra]. }
  destruct (roundPositive_near _ Hq0) as [_ Hr].
  rewrite <- toDouble_positive in Hr by done.
  pose proof (toDouble_pos _ Hq0) as Hr0.
  assert (Ht0 : (0 < 1 + toDouble (1 / toDouble step))%Q) by lra.
  destruct (roundPositive_near _ Ht0) as [_ Ht].
  rewrite <- toDouble_positive in Ht by done.
  pose proof (toDouble_pos _ Ht0) as Ht1.
  unfold levelOfStep.
  eapply Qle_lt_trans; [apply toUnsignedInteger_le; lra|].
  change (1 # 2 ^ 53)%Q with (1 # 9007199254740992)%Q in *.
  change (1 # 2 ^ 51)%Q with (1 # 2251799813685248)%Q in Hstep.
  set (u := (1 # 9007199254740992)%Q) in *.
  set (a := (1 / step)%Q).
  assert (Ha : (a <= 2251799813685248)%Q).
  { unfold a. apply Qle_shift_div_r; [done|]. lra. }
  assert (Ha0 : (0 < a)%Q) by (apply Qlt_shift_div_l; [done|lra]).
  assert (Hq : (1 / toDouble step <= a * / (1 - u))%Q).
  { assert (E : (a * / (1 - u) == / (step * (1 - u)))%Q).
    { unfold a, u. field. lra. }
    rewrite E. unfold Qdiv. rewrite Qmult_1_l.
    apply Qinv_le_anti; [|done].
    apply Qmult_lt_0_compat; [done|reflexivity]. }
  set (q := (1 / toDouble step)%Q) in *.
  set (r := toDouble q) in *.
  assert (Hr' : (r <= a * / (1 - u) * (1 + u))%Q).
  { eapply Qle_trans; [exact Hr|]. apply Qmult_le_compat_r; [done|discriminate]. }
  assert (Ht' : (toDouble (1 + r) <= (1 + a * / (1 - u) * (1 + u)) * (1 + u))%Q).
  { eapply Qle_trans; [exact Ht|]. apply Qmult_le_compat_r; [lra|discriminate]. }
  eapply Qle_lt_trans; [exact Ht'|].
  assert (Hc : (/ (1 - u) == 9007199254740992 # 9007199254740991)%Q) by reflexivity.
  rewrite Hc. unfold u. lra.
Qed.

(** It is not below [1 / step] either. *)
Lemma levelOfStep_ge (step : Q) (n : nat) :
  (1 # 2 ^ 51 <= step)%Q -> (toScalar n <= 1 / step)%Q -> n <= levelOfStep step.
Proof.
  intros Hstep Hn.
  assert (Hpos : (0 < step)%Q) by (eapply Qlt_le_trans; [|exact Hstep]; reflexivity).
  pose proof (toDouble_pos step Hpos) as Hd.
  destruct (roundPositive_near step Hpos) as [_ Hd1].
  rewrite <- toDouble_positive in Hd1 by done.
  assert (Hq0 : (0 < 1 / toDouble step)%Q).
  { apply Qlt_shift_div_l; [done|lra]. }
  destruct (roundPositive_near _ Hq0) as [Hr _].
  rewrite <- toDouble_positive in Hr by done.
  pose proof (toDouble_pos _ Hq0) as Hr0.
  assert (Ht0 : (0 < 1 + toDouble (1 / toDouble step))%Q) by lra.
  destruct (roundPositive_near _ Ht0) as [Ht _].
  rewrite <- toDouble_positive in Ht by done.
  unfold levelOfStep. apply toUnsignedInteger_ge.
  eapply Qle_trans; [exact Hn|].
  change (1 # 2 ^ 53)%Q with (1 # 9007199254740992)%Q in *.
  change (1 # 2 ^ 51)%Q with (1 # 2251799813685248)%Q in Hstep.
  set (u := (1 # 9007199254740992)%Q) in *.
  set (a := (1 / step)%Q).
  assert (Ha : (a <= 2251799813685248)%Q).
  { unfold a. apply Qle_shift_div_r; [done|]. lra. }
  assert (Ha0 : (0 < a)%Q) by (apply Qlt_shift_div_l; [done|lra]).
  assert (Hq : (a * / (1 + u) <= 1 / toDouble step)%Q).
  { assert (E : (a * / (1 + u) == / (step * (1 + u)))%Q).
    { unfold a, u. field. lra. }
    rewrite E. unfold Qdiv. rewrite Qmult_1_l.
    apply Qinv_le_anti; done. }
  set (q := (1 / toDouble step)%Q) in *.
  set (r := toDouble q) in *.
  assert (Hr' : (a * / (1 + u) * (1 - u) <= r)%Q).
  { eapply Qle_trans; [|exact Hr]. apply Qmult_le_compat_r; [done|discriminate]. }
  assert (Ht' : ((1 + a * / (1 + u) * (1 - u)) * (1 - u) <= toDouble (1 + r))%Q).
  { eapply Qle_trans; [|exact Ht]. apply Qmult_le_compat_r; [lra|discriminate]. }
  eapply Qle_trans; [|exact Ht'].
  assert (Hc : (/ (1 + u) == 9007199254740992 # 9007199254740993)%Q) by reflexivity.
  rewrite Hc. unfold u. lra.
Qed.

(** A grid index below [level - 1] gives a coordinate below 1. *)
Lemma grid_coordinate_lt_1 (step : Q) (j : nat) :
  (1 # 2 ^ 51 <= step)%Q -> j < levelOfStep step - 1 ->
  (0 <= step * toScalar j)%Q /\ (step * toScalar j < 1)%Q.
Proof.
  intros Hstep Hj.
  assert (Hpos : (0 < step)%Q) by (eapply Qlt_le_trans; [|exact Hstep]; reflexivity).
  pose proof (levelOfStep_lt step Hstep) as Hlt.
  pose proof (toScalar_nonneg j) as Hj0.
  assert (Hle : (toScalar j + 2 <= toScalar (levelOfStep step))%Q).
  { unfold toScalar. change 2%Q with (inject_Z 2). rewrite <- inject_Z_plus, <- Zle_Qle. lia. }
  split; [apply Qmult_le_0_compat; lra|].
  assert (Hj1 : (toScalar j < 1 / step)%Q) by lra.
  apply (Qmult_lt_l _ _ step Hpos) in Hj1.
  assert (E : (step * (1 / step) == 1)%Q) by (field; lra).
  by rewrite E in Hj1.
Qed.

(** What the level constructors store. *)
Lemma levels_generator_shape levels N g :
  MorrisExperiment_levels levels N = Ok g \/
  (exists interval, MorrisExperiment_levels_interval levels interval N = Ok g) ->
  (forall p level, levels !! p = Some level -> 1 < level) /\
  step_ g = map stepOfLevel levels /\
  experiment_ g = NumericalSample_default /\
  Interval_getDimension (interval_ g) = length levels.
Proof.
  intros Hg.
  assert (Hlookup : (forall k, k < length levels -> 1 < levels !!! k) ->
                    forall p level, levels !! p = Some level -> 1 < level).
  { intros Hall p level Hp. pose proof (lookup_lt_Some _ _ _ Hp) as Hlt.
    specialize (Hall p Hlt). by rewrite (list_lookup_total_correct _ _ _ Hp) in Hall. }
  destruct Hg as [Hg|[interval Hg]].
  - apply MorrisExperiment_levels_Ok in Hg as [Hall ->]. simpl.
    repeat split; [by apply Hlookup|].
    unfold Interval_getDimension. simpl. apply length_replicate.
  - apply MorrisExperiment_levels_interval_Ok in Hg as (Hdim & Hall & ->). simpl.
    repeat split; [by apply Hlookup|done].
Qed.

Section GridDraws.
Context `{RandomGenerator}.

(** The level [generateXBaseFromGrid()] computes for a dimension of a
    generator built from level counts is at least 2; it is the level count
    given to the constructor, or one less when the quotients round down. *)
Lemma levels_gridLevel levels N g p level :
  MorrisExperiment_levels levels N = Ok g \/
  (exists interval, MorrisExperiment_levels_interval levels interval N = Ok g) ->
  levels !! p = Some level ->
  1 < level /\ step_ g !!! p = stepOfLevel level /\ 2 <= gridLevel g p /\
  ((1 # 2 ^ 51 <= stepOfLevel level)%Q -> level - 1 <= gridLevel g p <= level).
Proof.
  intros (Hall & Hstep & _)%levels_generator_shape Hp.
  pose proof (Hall p level Hp) as Hlevel.
  assert (Hs : step_ g !!! p = stepOfLevel level).
  { rewrite Hstep. apply list_lookup_total_correct. by rewrite list_lookup_fmap, Hp. }
  split; [done|]. split; [done|].
  unfold gridLevel. rewrite Hs. split.
  - apply levelOfStep_ge_2; [by apply stepOfLevel_pos | by apply stepOfLevel_le_1].
  - intros Hsmall. split.
    + apply levelOfStep_ge; [done|]. rewrite stepOfLevel_reciprocal by done. apply Qle_refl.
    + pose proof (levelOfStep_lt _ Hsmall) as Hlt.
      rewrite stepOfLevel_reciprocal in Hlt by done.
      assert (Hlt' : (toScalar (levelOfStep (stepOfLevel level)) < toScalar (level + 1))%Q).
      { eapply Qlt_le_trans; [exact Hlt|]. unfold toScalar.
        change 2%Q with (inject_Z 2). rewrite <- inject_Z_plus, <- Zle_Qle. lia. }
      apply toScalar_lt_inv in Hlt'. lia.
Qed.

Lemma gridDraw_lt g rng p :
  2 <= gridLevel g p -> gridDraw g rng p < gridLevel g p - 1.
Proof. intros Hl. unfold gridDraw. apply IntegerGenerate_lt. lia. Qed.

End GridDraws.

(** The steps of a generator are positive, unless it was built from an
    empty pool and an interval (the pool constructor without interval
    refuses an empty pool). *)
Lemma poolStep_pos size : 0 < size -> (0 < (1 # 2) / toScalar size)%Q.
Proof.
  intros Hsize. pose proof (toScalar_le 1 size Hsize) as Hle.
  change (toScalar 1) with 1%Q in Hle.
  apply Qlt_shift_div_l; lra.
Qed.

Lemma constructed_steps d N g :
  constructed d N g ->
  (forall c, c < d -> (0 < step_ g !!! c)%Q) \/
  (exists lhsDesign interval,
     MorrisExperiment_lhs_interval lhsDesign interval N = Ok g /\ getSize lhsDesign = 0).
Proof.
  destruct 1 as [levels N g Hg|levels interval N g Hwf Hg|lhs N g Hwf Hg
                |lhs interval N g Hwf Hwfi Hg].
  - left. intros c Hc.
    destruct (lookup_lt_is_Some_2 levels c Hc) as [level Hlevel].
    destruct (levels_generator_shape levels N g (or_introl Hg)) as (Hall & -> & _).
    erewrite list_lookup_total_correct; [|by rewrite list_lookup_fmap, Hlevel].
    apply stepOfLevel_pos. by eapply Hall.
  - left. intros c Hc.
    destruct (lookup_lt_is_Some_2 levels c Hc) as [level Hlevel].
    destruct (levels_generator_shape levels N g (or_intror (ex_intro _ interval Hg)))
      as (Hall & -> & _).
    erewrite list_lookup_total_correct; [|by rewrite list_lookup_fmap, Hlevel].
    apply stepOfLevel_pos. by eapply Hall.
  - left. intros c Hc.
    destruct (MorrisExperiment_lhs_cases lhs N Hwf)
      as [[_ He]|[(Hne & _ & He)|(_ & k & a & b & He)]]; rewrite He in Hg; try done.
    injection Hg as <-. simpl. rewrite lookup_total_replicate_2 by done.
    apply poolStep_pos. unfold getSize. destruct (sampleData lhs); [done|simpl; lia].
  - destruct (decide (getSize lhs = 0)) as [Hempty|Hne].
    + right. by exists lhs, interval.
    + left. intros c Hc.
      apply MorrisExperiment_lhs_interval_Ok in Hg as (_ & ->). simpl.
      rewrite lookup_total_replicate_2 by done. apply poolStep_pos. lia.
Qed.

(** ** The grid base point *)

(** C9. In grid mode (a generator built from level counts, which has no
    pool), [generateXBaseFromGrid()] sets coordinate [p] of the base point to
    [j * step_[p]], where [j] is the integer that [IntegerGenerate(level - 1)]
    returns at the iteration for [p] and [level] is the cast of
    [1 + 1 / step_[p]], evaluated in double arithmetic as the code does.
    The level is at least 2, so that [j < level - 1] is drawn from a range
    that is not empty and is never the last index [level - 1].  This is the
    base point of every trajectory of such a generator.  For a step of at
    least [2^-51] the level is the level count given to the constructor or,
    when the quotients round down, one less, and the coordinate stays below
    1: the last grid level is never the base coordinate. *)
Theorem grid_base_point `{RandomGenerator} levels N g rng :
  MorrisExperiment_levels levels N = Ok g \/
  (exists interval, MorrisExperiment_levels_interval levels interval N = Ok g) ->
  getSize (experiment_ g) = 0 /\
  generateXBaseFromGrid g rng =
    Ok (map (fun p => (step_ g !!! p * toScalar (gridDraw g rng p))%Q)
            (seq 0 (length levels)),
        gridState g rng (length levels)) /\
  (forall t rng', trajectoryDraw g rng = Ok (t, rng') ->
     xBase t = map (fun p => (step_ g !!! p * toScalar (gridDraw g rng p))%Q)
                   (seq 0 (length levels))) /\
  (forall p, p < length levels ->
     gridLevel g p =
       toUnsignedInteger (toDouble (1 + toDouble (1 / toDouble (step_ g !!! p)))) /\
     2 <= gridLevel g p /\
     gridDraw g rng p = fst (IntegerGenerate (gridLevel g p - 1) (gridState g rng p)) /\
     gridDraw g rng p < gridLevel g p - 1) /\
  (forall p level, levels !! p = Some level -> (1 # 2 ^ 51 <= step_ g !!! p)%Q ->
     level - 1 <= gridLevel g p <= level /\
     (step_ g !!! p * toScalar (gridDraw g rng p) < 1)%Q).
Proof.
  intros Hg.
  destruct (levels_generator_shape levels N g Hg) as (Hall & Hstep & Hexp & Hdim).
  split; [by rewrite Hexp|].
  split; [by rewrite generateXBaseFromGrid_Ok, Hdim|].
  split.
  { intros t rng' Ht.
    destruct (trajectoryDraw_xBase g rng t rng' Ht) as [[Hpos _]|[_ ->]].
    - rewrite Hexp in Hpos. unfold getSize in Hpos. simpl in Hpos. lia.
    - by rewrite Hdim. }
  split.
  { intros p Hp.
    destruct (lookup_lt_is_Some_2 levels p Hp) as [level Hlevel].
    destruct (levels_gridLevel levels N g p level Hg Hlevel) as (_ & _ & Hge & _).
    split; [reflexivity|]. split; [exact Hge|]. split; [reflexivity|].
    by apply gridDraw_lt. }
  intros p level Hp Hsmall.
  destruct (levels_gridLevel levels N g p level Hg Hp) as (_ & Hs & Hge & Hnear).
  split; [apply Hnear; by rewrite <- Hs|].
  apply grid_coordinate_lt_1; [done|]. by apply gridDraw_lt.
Qed.

Lemma grid_base_point_witness :
  (MorrisExperiment_levels [100] 1 = Ok example_hundred \/
   (exists interval, MorrisExperiment_levels_interval [100] interval 1 = Ok example_hundred)) /\
  gridLevel example_hundred 0 = 99 /\
  gridDraw (H := Scripted.generator) example_hundred [205] 0 = 9 /\
  generateXBaseFromGrid (H := Scripted.generator) example_hundred [205] =
  Ok (map (fun p => Qmult (step_ example_hundred !!! p)
                          (toScalar (gridDraw (H := Scripted.generator)
                                              example_hundred [205] p)))
          (seq 0 1),
      gridState (H := Scripted.generator) example_hundred [205] 1).
Proof.
  assert (Hg : MorrisExperiment_levels [100] 1 = Ok example_hundred \/
   (exists interval, MorrisExperiment_levels_interval [100] interval 1 = Ok example_hundred)).
  { left. reflexivity. }
  split; [exact Hg|]. split; [by vm_compute|]. split; [by vm_compute|].
  exact (proj1 (proj2 (grid_base_point (H := Scripted.generator) [100] 1 _ [205] Hg))).
Defined.

(** ** The walk of a trajectory *)

Section Walk.
Context `{RandomGenerator}.

(** The entry at row [i], column [p] of a trajectory, spelled out. *)
Lemma trajectoryEntry_value d N g rng t rng' i p :
  constructed d N g -> trajectoryDraw g rng = Ok (t, rng') -> i <= d -> p < d ->
  trajectoryEntry g t i p =
    ((getUpperBound (interval_ g) !!! p - getLowerBound (interval_ g) !!! p)
     * ((orientation p i * directions t !!! p + 1) * (1 # 2) * step_ g !!! p
        + xBase t !!! p)
     + getLowerBound (interval_ g) !!! p)%Q.
Proof.
  intros Hg Ht Hi Hp.
  destruct (constructed_shape d N g Hg) as (Hd & _ & Hlow & Hup & _).
  unfold trajectoryEntry, realization.
  rewrite (delta_lookup (interval_ g) d p Hlow Hup Hp).
  rewrite Hd, orientationColumn_lookup by done. reflexivity.
Qed.

Lemma trajectoryPoint_lookup g t i p :
  p < length (step_ g) -> trajectoryPoint g t i !!! p = trajectoryEntry g t i p.
Proof.
  intros Hp. unfold trajectoryPoint. apply list_lookup_total_correct.
  by rewrite list_lookup_fmap, lookup_seq_lt by done.
Qed.

(** The rows of the sample [generate()] returns are the points of the
    trajectories it drew. *)
Lemma generate_rows d N g rng sample rng' :
  constructed d N g -> generate g rng = Ok (sample, rng') ->
  getSize sample = N * (d + 1) /\
  forall k, k < N ->
    exists t st st', trajectoryDraw g st = Ok (t, st') /\
      forall i, i <= d ->
        sampleData sample !! (k * (d + 1) + i) = Some (trajectoryPoint g t i).
Proof.
  intros Hg Hgen. destruct (constructed_shape d N g Hg) as (Hd & HN & _).
  destruct (generate_Ok g rng) as (F & draws & rng1 & Hgen' & Hdrawn & Hlen & HF).
  rewrite Hgen' in Hgen. injection Hgen as <- <-. rewrite Hd, HN in *.
  split; [apply tabulate_size|].
  intros k Hk.
  destruct (lookup_lt_is_Some_2 draws k) as [t Ht]; [lia|].
  destruct (drawn_lookup g rng draws rng1 k t Hdrawn Ht) as (st & st' & Hdraw).
  exists t, st, st'. split; [exact Hdraw|].
  intros i Hi.
  rewrite tabulate_lookup by nia. f_equal.
  unfold trajectoryPoint. rewrite Hd.
  apply map_ext_in. intros p Hp%in_seq. apply (HF k t i p Ht Hi). lia.
Qed.

(** One step of the walk: the points [i] and [i + 1] of a trajectory hold
    the same number in every coordinate but [i]. *)
Lemma trajectory_step d N g rng t rng' i :
  constructed d N g -> trajectoryDraw g rng = Ok (t, rng') -> i < d ->
  forall c, c < d -> c <> i -> trajectoryEntry g t i c = trajectoryEntry g t (i + 1) c.
Proof.
  intros Hg Ht Hi c Hc Hne.
  rewrite !(trajectoryEntry_value d N g rng t rng') by (done || lia).
  assert (Ho : orientation c i = orientation c (i + 1)).
  { unfold orientation.
    destruct (Nat.leb_spec i c), (Nat.leb_spec (i + 1) c); (done || lia). }
  by rewrite Ho.
Qed.

(** The rows of the sample, trajectory by trajectory, along the draws. *)
Lemma generate_rows_drawn d N g rng sample rng' :
  constructed d N g -> generate g rng = Ok (sample, rng') ->
  exists draws, drawn g rng draws rng' /\ length draws = N /\
    forall k t, draws !! k = Some t ->
      (exists st st', trajectoryDraw g st = Ok (t, st')) /\
      forall i, i <= d ->
        sampleData sample !! (k * (d + 1) + i) = Some (trajectoryPoint g t i).
Proof.
  intros Hg Hgen. destruct (constructed_shape d N g Hg) as (Hd & HN & _).
  destruct (generate_Ok g rng) as (F & draws & rng1 & Hgen' & Hdrawn & Hlen & HF).
  rewrite Hgen' in Hgen. injection Hgen as <- <-. rewrite Hd, HN in *.
  exists draws. split; [exact Hdrawn|]. split; [exact Hlen|].
  intros k t Ht. split; [by eapply drawn_lookup|].
  intros i Hi. pose proof (lookup_lt_Some _ _ _ Ht) as Hk.
  rewrite tabulate_lookup by nia. f_equal.
  unfold trajectoryPoint. rewrite Hd.
  apply map_ext_in. intros p Hp%in_seq. apply (HF k t i p Ht Hi). lia.
Qed.

(** The two values a coordinate takes along a trajectory, by direction. *)
Lemma trajectoryEntry_direction d N g rng t rng' i p :
  constructed d N g -> trajectoryDraw g rng = Ok (t, rng') -> i <= d -> p < d ->
  (directions t !!! p = 1%Q /\
   trajectoryEntry g t i p ==
     getLowerBound (interval_ g) !!! p
     + (getUpperBound (interval_ g) !!! p - getLowerBound (interval_ g) !!! p)
       * (xBase t !!! p + (if p <? i then step_ g !!! p else 0)))%Q \/
  (directions t !!! p = (-1)%Q /\
   trajectoryEntry g t i p ==
     getLowerBound (interval_ g) !!! p
     + (getUpperBound (interval_ g) !!! p - getLowerBound (interval_ g) !!! p)
       * (xBase t !!! p + (if i <=? p then step_ g !!! p else 0)))%Q.
Proof.
  intros Hg Ht Hi Hp.
  rewrite (trajectoryEntry_value d N g rng t rng') by done.
  destruct (trajectoryDraw_shape d N g rng t rng' Hg Ht) as (_ & _ & Hdir).
  unfold orientation.
  destruct (Hdir p Hp) as [Hd1|Hd1]; [left|right]; (split; [exact Hd1|]); rewrite Hd1.
  - destruct (Nat.leb_spec i p), (Nat.ltb_spec p i); try lia; ring.
  - destruct (Nat.leb_spec i p); ring.
Qed.

End Walk.

(** C2, as the code has it.  The two rows of a pair of consecutive rows of a
    trajectory hold the same number in every coordinate but one; in that
    coordinate one of them holds [lowerBound + delta * x], where [x] is the
    base coordinate of the trajectory, and the other
    [lowerBound + delta * (x + step_)], with [delta = upperBound -
    lowerBound]. *)
Theorem consecutive_rows `{RandomGenerator} d N g rng sample rng' :
  constructed d N g ->
  generate g rng = Ok (sample, rng') ->
  exists draws, drawn g rng draws rng' /\ length draws = N /\
    forall k t i a b, draws !! k = Some t -> i < d ->
      sampleData sample !! (k * (d + 1) + i) = Some a ->
      sampleData sample !! (k * (d + 1) + i + 1) = Some b ->
      exists c, c < d /\
        (forall c', c' < d -> c' <> c -> a !!! c' = b !!! c') /\
        ((a !!! c ==
            getLowerBound (interval_ g) !!! c
            + (getUpperBound (interval_ g) !!! c - getLowerBound (interval_ g) !!! c)
              * xBase t !!! c /\
          b !!! c ==
            getLowerBound (interval_ g) !!! c
            + (getUpperBound (interval_ g) !!! c - getLowerBound (interval_ g) !!! c)
              * (xBase t !!! c + step_ g !!! c))%Q \/
         (a !!! c ==
            getLowerBound (interval_ g) !!! c
            + (getUpperBound (interval_ g) !!! c - getLowerBound (interval_ g) !!! c)
              * (xBase t !!! c + step_ g !!! c) /\
          b !!! c ==
            getLowerBound (interval_ g) !!! c
            + (getUpperBound (interval_ g) !!! c - getLowerBound (interval_ g) !!! c)
              * xBase t !!! c)%Q).
Proof.
  intros Hg Hgen. destruct (constructed_shape d N g Hg) as (Hd & _).
  destruct (generate_rows_drawn d N g rng sample rng' Hg Hgen)
    as (draws & Hdrawn & Hlen & Hrows).
  exists draws. split; [exact Hdrawn|]. split; [exact Hlen|].
  intros k t i a b Ht Hi Ha Hb.
  destruct (Hrows k t Ht) as [(st & st' & Hdraw) Hpoints].
  rewrite (Hpoints i) in Ha by lia.
  rewrite <- Nat.add_assoc, (Hpoints (i + 1)) in Hb by lia.
  injection Ha as <-. injection Hb as <-.
  exists i. split; [exact Hi|]. split.
  - intros c' Hc' Hne. rewrite !trajectoryPoint_lookup by lia.
    by apply (trajectory_step d N g st t st').
  - rewrite !trajectoryPoint_lookup by lia.
    destruct (trajectoryEntry_direction d N g st t st' i i Hg Hdraw ltac:(lia) Hi)
      as [[Hd1 ->]|[Hd1 ->]];
      destruct (trajectoryEntry_direction d N g st t st' (i + 1) i Hg Hdraw ltac:(lia) Hi)
      as [[Hd2 ->]|[Hd2 ->]]; try (rewrite Hd1 in Hd2; discriminate Hd2).
    + left. destruct (Nat.ltb_spec i i), (Nat.ltb_spec i (i + 1)); try lia.
      split; ring.
    + right. destruct (Nat.leb_spec i i), (Nat.leb_spec (i + 1) i); try lia.
      split; ring.
Qed.

Lemma consecutive_rows_witness :
  constructed 2 1 example_levels /\
  generate (H := Scripted.generator) example_levels [0; 1; 1; 0; 0; 0] =
    Ok (mkSample 2 [[0 # 8; 4 # 8]; [4 # 8; 4 # 8]; [4 # 8; 8 # 8]]%Q, []) /\
  exists draws,
    drawn (H := Scripted.generator) example_levels [0; 1; 1; 0; 0; 0] draws [] /\
    length draws = 1 /\
    forall k t i a b, draws !! k = Some t -> i < 2 ->
      [[0 # 8; 4 # 8]; [4 # 8; 4 # 8]; [4 # 8; 8 # 8]]%Q !! (k * (2 + 1) + i) = Some a ->
      [[0 # 8; 4 # 8]; [4 # 8; 4 # 8]; [4 # 8; 8 # 8]]%Q !! (k * (2 + 1) + i + 1) = Some b ->
      exists c, c < 2 /\
        (forall c', c' < 2 -> c' <> c -> a !!! c' = b !!! c') /\
        ((a !!! c ==
            getLowerBound (interval_ example_levels) !!! c
            + (getUpperBound (interval_ example_levels) !!! c
               - getLowerBound (interval_ example_levels) !!! c)
              * xBase t !!! c /\
          b !!! c ==
            getLowerBound (interval_ example_levels) !!! c
            + (getUpperBound (interval_ example_levels) !!! c
               - getLowerBound (interval_ example_levels) !!! c)
              * (xBase t !!! c + step_ example_levels !!! c))%Q \/
         (a !!! c ==
            getLowerBound (interval_ example_levels) !!! c
            + (getUpperBound (interval_ example_levels) !!! c
               - getLowerBound (interval_ example_levels) !!! c)
              * (xBase t !!! c + step_ example_levels !!! c) /\
          b !!! c ==
            getLowerBound (interval_ example_levels) !!! c
            + (getUpperBound (interval_ example_levels) !!! c
               - getLowerBound (interval_ example_levels) !!! c)
              * xBase t !!! c)%Q).
Proof.
  split; [exact example_levels_constructed|]. split; [reflexivity|].
  exact (consecutive_rows (H := Scripted.generator) 2 1 example_levels
           [0; 1; 1; 0; 0; 0]
           (mkSample 2 [[0 # 8; 4 # 8]; [4 # 8; 4 # 8]; [4 # 8; 8 # 8]]%Q) []
           example_levels_constructed eq_refl).
Defined.

(** C2 fails as stated: with an interval reduced to a point, the two rows of
    the trajectory are the same point. *)
Lemma consecutive_rows_counterexample :
  MorrisExperiment_levels_interval [2] (mkInterval [0%Q] [0%Q]) 1 = Ok example_degenerate /\
  generate (H := Scripted.generator) example_degenerate [] =
    Ok (mkSample 1 [[0 # 2]; [0 # 2]]%Q, []) /\
  ~ differInExactlyOne 1 [0 # 2]%Q [0 # 2]%Q.
Proof.
  split; [reflexivity|]. split; [reflexivity|].
  intros (c & Hc & Hdiffer & _). apply Hdiffer. reflexivity.
Qed.

(** ** The order of the walk *)

(** C4 at a failing input.  The generator of levels (3, 3) draws the
    permutation (1, 0) for its trajectory and never reads it: the rows 0 and
    1 differ in coordinate 0, not in coordinate 1. *)
Theorem permutation_not_applied :
  MorrisExperiment_levels [3; 3] 1 = Ok example_levels /\
  trajectoryDraw (H := Scripted.generator) example_levels [0; 0; 0; 0; 0; 0] =
    Ok (mkDraw [0 # 2; 0 # 2]%Q [1; 0]%Q [1; 1]%Q, []) /\
  generate (H := Scripted.generator) example_levels [0; 0; 0; 0; 0; 0] =
    Ok (mkSample 2 [[0 # 8; 0 # 8]; [4 # 8; 0 # 8]; [4 # 8; 4 # 8]]%Q, []) /\
  ~ ([0 # 8; 0 # 8]%Q !!! 0%nat == [4 # 8; 0 # 8]%Q !!! 0%nat)%Q /\
  ([0 # 8; 0 # 8]%Q !!! 1%nat == [4 # 8; 0 # 8]%Q !!! 1%nat)%Q.
Proof.
  split; [reflexivity|]. split; [reflexivity|]. split; [reflexivity|].
  split; by vm_compute.
Qed.

(** ** Bounds *)



Section Bounds.
Context `{RandomGenerator}.


End Bounds.




(** * Further properties of the code *)

(** ** The column builder *)

(** X1. [getOrientationMatrixColumn(p)] throws "Could not build the column"
    exactly when [p] is not below the dimension; otherwise it returns a
    column of [dimension + 1] entries, -1 in the rows [0 .. p] and +1 in the
    rows below. *)
Theorem getOrientationMatrixColumn_spec g p :
  (length (step_ g) <= p ->
   getOrientationMatrixColumn g p = Throw (InvalidArgumentException CouldNotBuildColumn)) /\
  (p < length (step_ g) ->
   exists column,
     getOrientationMatrixColumn g p = Ok column /\
     length column = length (step_ g) + 1 /\
     forall i, i <= length (step_ g) ->
       column !! i = Some (if i <=? p then (-1)%Q else 1%Q)).
Proof.
  split.
  - intros Hp. unfold getOrientationMatrixColumn.
    destruct (Nat.leb_spec (length (step_ g)) p); [reflexivity|lia].
  - intros Hp. exists (orientationColumn (length (step_ g)) p).
    split; [by apply getOrientationMatrixColumn_Ok|].
    unfold orientationColumn. split; [by rewrite length_map, length_seq|].
    intros i Hi. by rewrite list_lookup_fmap, lookup_seq_lt by lia.
Qed.

(** ** Persistence *)

(** X2. [load] after [save] restores the generator: the four attributes
    [save] stores are the four that [load] reads, under the same names, so
    that whatever object is loaded into becomes the saved one (provided the
    base class finds its own attributes). *)
Theorem load_save WeightedExperiment_save WeightedExperiment_load g0 g adv :
  WeightedExperiment_load (save WeightedExperiment_save g adv) = Some tt ->
  load WeightedExperiment_load g0 (save WeightedExperiment_save g adv) = Some g.
Proof.
  intros Hbase. unfold load. rewrite Hbase. simpl.
  unfold save, saveAttribute, loadAttribute_Interval, loadAttribute_NumericalSample,
    loadAttribute_NumericalPoint, loadAttribute_UnsignedInteger.
  rewrite (lookup_insert_ne _ "N_" "interval_") by done.
  rewrite (lookup_insert_ne _ "step_" "interval_") by done.
  rewrite (lookup_insert_ne _ "experiment_" "interval_") by done.
  rewrite lookup_insert_eq. simpl.
  rewrite (lookup_insert_ne _ "N_" "experiment_") by done.
  rewrite (lookup_insert_ne _ "step_" "experiment_") by done.
  rewrite lookup_insert_eq. simpl.
  rewrite (lookup_insert_ne _ "N_" "step_") by done.
  rewrite lookup_insert_eq. simpl.
  rewrite lookup_insert_eq. simpl.
  by destruct g.
Qed.

Lemma load_save_witness :
  (fun _ : gmap string Attribute => Some tt)
    (save (fun adv => adv) example_pool ∅) = Some tt /\
  load (fun _ => Some tt) example_levels (save (fun adv => adv) example_pool ∅)
    = Some example_pool.
Proof.
  split; [reflexivity|].
  exact (load_save (fun adv => adv) (fun _ => Some tt) example_levels example_pool ∅
           eq_refl).
Defined.

(** ** The shape of a trajectory *)

(** X3. Every generated coordinate is one of two values, the base value
    [lowerBound[p] + delta[p] * xBase[p]] of its trajectory or that value one
    step further, [lowerBound[p] + delta[p] * (xBase[p] + step_[p])].  With
    the direction +1 drawn for [p], the rows [0 .. p] of the trajectory have
    the base value and the rows [p + 1 .. dimension] the stepped one; with
    the direction -1 it is the other way round. *)
Theorem trajectory_coordinates `{RandomGenerator} d N g rng sample rng' :
  constructed d N g ->
  generate g rng = Ok (sample, rng') ->
  exists draws, drawn g rng draws rng' /\ length draws = N /\
    forall k t i p row, draws !! k = Some t -> i <= d -> p < d ->
      sampleData sample !! (k * (d + 1) + i) = Some row ->
      (directions t !!! p = 1%Q /\
       row !!! p ==
         getLowerBound (interval_ g) !!! p
         + (getUpperBound (interval_ g) !!! p - getLowerBound (interval_ g) !!! p)
           * (xBase t !!! p + (if p <? i then step_ g !!! p else 0)))%Q \/
      (directions t !!! p = (-1)%Q /\
       row !!! p ==
         getLowerBound (interval_ g) !!! p
         + (getUpperBound (interval_ g) !!! p - getLowerBound (interval_ g) !!! p)
           * (xBase t !!! p + (if i <=? p then step_ g !!! p else 0)))%Q.
Proof.
  intros Hg Hgen. destruct (constructed_shape d N g Hg) as (Hd & _).
  destruct (generate_rows_drawn d N g rng sample rng' Hg Hgen)
    as (draws & Hdrawn & Hlen & Hrows).
  exists draws. split; [exact Hdrawn|]. split; [exact Hlen|].
  intros k t i p row Ht Hi Hp Hrow.
  destruct (Hrows k t Ht) as [(st & st' & Hdraw) Hpoints].
  rewrite (Hpoints i Hi) in Hrow. injection Hrow as <-.
  rewrite trajectoryPoint_lookup by lia.
  by apply (trajectoryEntry_direction d N g st t st').
Qed.

Lemma trajectory_coordinates_witness :
  constructed 2 1 example_levels /\
  generate (H := Scripted.generator) example_levels [0; 1; 1; 0; 0; 0] =
    Ok (mkSample 2 [[0 # 8; 4 # 8]; [4 # 8; 4 # 8]; [4 # 8; 8 # 8]]%Q, []) /\
  exists draws,
    drawn (H := Scripted.generator) example_levels [0; 1; 1; 0; 0; 0] draws [] /\
    length draws = 1 /\
    forall k t i p row, draws !! k = Some t -> i <= 2 -> p < 2 ->
      [[0 # 8; 4 # 8]; [4 # 8; 4 # 8]; [4 # 8; 8 # 8]]%Q !! (k * (2 + 1) + i) = Some row ->
      (directions t !!! p = 1%Q /\
       row !!! p ==
         getLowerBound (interval_ example_levels) !!! p
         + (getUpperBound (interval_ example_levels) !!! p
            - getLowerBound (interval_ example_levels) !!! p)
           * (xBase t !!! p + (if p <? i then step_ example_levels !!! p else 0)))%Q \/
      (directions t !!! p = (-1)%Q /\
       row !!! p ==
         getLowerBound (interval_ example_levels) !!! p
         + (getUpperBound (interval_ example_levels) !!! p
            - getLowerBound (interval_ example_levels) !!! p)
           * (xBase t !!! p + (if i <=? p then step_ example_levels !!! p else 0)))%Q.
Proof.
  split; [exact example_levels_constructed|]. split; [reflexivity|].
  exact (trajectory_coordinates (H := Scripted.generator) 2 1 example_levels
           [0; 1; 1; 0; 0; 0]
           (mkSample 2 [[0 # 8; 4 # 8]; [4 # 8; 4 # 8]; [4 # 8; 8 # 8]]%Q) []
           example_levels_constructed eq_refl).
Defined.

(** X4. Between two rows [i <= j] of a trajectory, coordinate [p] is the
    same number in both unless [i <= p < j].  In that case one of the two
    rows holds the base value [lowerBound[p] + delta[p] * xBase[p]] and the
    other the stepped value [lowerBound[p] + delta[p] * (xBase[p] +
    step_[p])]: row [i] the base value and row [j] the stepped one when the
    direction drawn for [p] is +1, the other way round when it is -1.  Each
    coordinate changes at most once along the walk, between the rows [p] and
    [p + 1]. *)
Theorem walk_between_rows `{RandomGenerator} d N g rng sample rng' :
  constructed d N g ->
  generate g rng = Ok (sample, rng') ->
  exists draws, drawn g rng draws rng' /\ length draws = N /\
    forall k t i j p a b, draws !! k = Some t -> i <= j -> j <= d -> p < d ->
      sampleData sample !! (k * (d + 1) + i) = Some a ->
      sampleData sample !! (k * (d + 1) + j) = Some b ->
      (~ (i <= p < j) -> a !!! p = b !!! p) /\
      (i <= p < j ->
       (directions t !!! p = 1%Q /\
        a !!! p ==
          getLowerBound (interval_ g) !!! p
          + (getUpperBound (interval_ g) !!! p - getLowerBound (interval_ g) !!! p)
            * xBase t !!! p /\
        b !!! p ==
          getLowerBound (interval_ g) !!! p
          + (getUpperBound (interval_ g) !!! p - getLowerBound (interval_ g) !!! p)
            * (xBase t !!! p + step_ g !!! p))%Q \/
       (directions t !!! p = (-1)%Q /\
        a !!! p ==
          getLowerBound (interval_ g) !!! p
          + (getUpperBound (interval_ g) !!! p - getLowerBound (interval_ g) !!! p)
            * (xBase t !!! p + step_ g !!! p) /\
        b !!! p ==
          getLowerBound (interval_ g) !!! p
          + (getUpperBound (interval_ g) !!! p - getLowerBound (interval_ g) !!! p)
            * xBase t !!! p)%Q).
Proof.
  intros Hg Hgen. destruct (constructed_shape d N g Hg) as (Hd & _).
  destruct (generate_rows_drawn d N g rng sample rng' Hg Hgen)
    as (draws & Hdrawn & Hlen & Hrows).
  exists draws. split; [exact Hdrawn|]. split; [exact Hlen|].
  intros k t i j p a b Ht Hij Hj Hp Ha Hb.
  destruct (Hrows k t Ht) as [(st & st' & Hdraw) Hpoints].
  rewrite (Hpoints i) in Ha by lia. rewrite (Hpoints j Hj) in Hb.
  injection Ha as <-. injection Hb as <-.
  rewrite !trajectoryPoint_lookup by lia. split.
  - intros Hstay.
    rewrite !(trajectoryEntry_value d N g st t st') by (done || lia).
    assert (Ho : orientation p i = orientation p j).
    { unfold orientation.
      destruct (Nat.leb_spec i p), (Nat.leb_spec j p); (done || lia). }
    by rewrite Ho.
  - intros Hmove.
    destruct (trajectoryEntry_direction d N g st t st' i p Hg Hdraw ltac:(lia) Hp)
      as [[Hd1 ->]|[Hd1 ->]];
      destruct (trajectoryEntry_direction d N g st t st' j p Hg Hdraw Hj Hp)
      as [[Hd2 ->]|[Hd2 ->]]; try (rewrite Hd1 in Hd2; discriminate Hd2).
    + left. split; [exact Hd1|].
      destruct (Nat.ltb_spec p i), (Nat.ltb_spec p j); try lia. split; ring.
    + right. split; [exact Hd1|].
      destruct (Nat.leb_spec i p), (Nat.leb_spec j p); try lia. split; ring.
Qed.

Lemma walk_between_rows_witness :
  constructed 2 1 example_levels /\
  generate (H := Scripted.generator) example_levels [0; 1; 1; 0; 0; 0] =
    Ok (mkSample 2 [[0 # 8; 4 # 8]; [4 # 8; 4 # 8]; [4 # 8; 8 # 8]]%Q, []) /\
  exists draws,
    drawn (H := Scripted.generator) example_levels [0; 1; 1; 0; 0; 0] draws [] /\
    length draws = 1 /\
    forall k t i j p a b, draws !! k = Some t -> i <= j -> j <= 2 -> p < 2 ->
      [[0 # 8; 4 # 8]; [4 # 8; 4 # 8]; [4 # 8; 8 # 8]]%Q !! (k * (2 + 1) + i) = Some a ->
      [[0 # 8; 4 # 8]; [4 # 8; 4 # 8]; [4 # 8; 8 # 8]]%Q !! (k * (2 + 1) + j) = Some b ->
      (~ (i <= p < j) -> a !!! p = b !!! p) /\
      (i <= p < j ->
       (directions t !!! p = 1%Q /\
        a !!! p ==
          getLowerBound (interval_ example_levels) !!! p
          + (getUpperBound (interval_ example_levels) !!! p
             - getLowerBound (interval_ example_levels) !!! p)
            * xBase t !!! p /\
        b !!! p ==
          getLowerBound (interval_ example_levels) !!! p
          + (getUpperBound (interval_ example_levels) !!! p
             - getLowerBound (interval_ example_levels) !!! p)
            * (xBase t !!! p + step_ example_levels !!! p))%Q \/
       (directions t !!! p = (-1)%Q /\
        a !!! p ==
          getLowerBound (interval_ example_levels) !!! p
          + (getUpperBound (interval_ example_levels) !!! p
             - getLowerBound (interval_ example_levels) !!! p)
            * (xBase t !!! p + step_ example_levels !!! p) /\
        b !!! p ==
          getLowerBound (interval_ example_levels) !!! p
          + (getUpperBound (interval_ example_levels) !!! p
             - getLowerBound (interval_ example_levels) !!! p)
            * xBase t !!! p)%Q).
Proof.
  split; [exact example_levels_constructed|]. split; [reflexivity|].
  exact (walk_between_rows (H := Scripted.generator) 2 1 example_levels
           [0; 1; 1; 0; 0; 0]
           (mkSample 2 [[0 # 8; 4 # 8]; [4 # 8; 4 # 8]; [4 # 8; 8 # 8]]%Q) []
           example_levels_constructed eq_refl).
Defined.

(** ** Where the trajectories lie *)

Section Anchors.
Context `{RandomGenerator}.

(** A coordinate of a trajectory in unit-cube terms: the base coordinate, or
    one step further. *)
Lemma trajectoryEntry_cases d N g rng t rng' i p :
  constructed d N g -> trajectoryDraw g rng = Ok (t, rng') -> i <= d -> p < d ->
  exists offset, (offset = 0%Q \/ offset = step_ g !!! p) /\
    (trajectoryEntry g t i p ==
       getLowerBound (interval_ g) !!! p
       + (getUpperBound (interval_ g) !!! p - getLowerBound (interval_ g) !!! p)
         * (xBase t !!! p + offset))%Q.
Proof.
  intros Hg Ht Hi Hp.
  destruct (trajectoryEntry_direction d N g rng t rng' i p Hg Ht Hi Hp)
    as [[_ Hv]|[_ Hv]].
  - exists (if p <? i then step_ g !!! p else 0%Q).
    split; [destruct (p <? i); auto|exact Hv].
  - exists (if i <=? p then step_ g !!! p else 0%Q).
    split; [destruct (i <=? p); auto|exact Hv].
Qed.

End Anchors.

(** X5. A generator built from a pool alone anchors every trajectory at one
    of the points of the pool as the caller gave it: each coordinate of each
    row of the trajectory is the coordinate [x] of that point, or
    [x + 0.5 / poolSize]. *)
Theorem lhs_trajectories_anchored `{RandomGenerator} lhsDesign N g rng sample rng' k :
  wf_sample lhsDesign ->
  MorrisExperiment_lhs lhsDesign N = Ok g ->
  generate g rng = Ok (sample, rng') ->
  k < N ->
  exists index point,
    sampleData lhsDesign !! index = Some point /\
    forall i p row, i <= sampleDimension lhsDesign -> p < sampleDimension lhsDesign ->
      sampleData sample !! (k * (sampleDimension lhsDesign + 1) + i) = Some row ->
      (row !!! p == point !!! p \/
       row !!! p == point !!! p + (1 # 2) / toScalar (getSize lhsDesign))%Q.
Proof.
  intros Hwf Hctor Hgen Hk.
  pose proof (constructed_lhs lhsDesign N g Hwf Hctor) as Hg.
  set (d := sampleDimension lhsDesign) in *.
  destruct (MorrisExperiment_lhs_cases lhsDesign N Hwf)
    as [[_ He]|[(Hne & _ & He)|(_ & c & a & b & He)]]; rewrite He in Hctor; try done.
  injection Hctor as Hgeq.
  destruct (generate_rows d N g rng sample rng' Hg Hgen) as [_ Hrows].
  destruct (Hrows k Hk) as (t & st & st' & Ht & Hpoints).
  destruct (trajectoryDraw_xBase g st t st' Ht) as [(_ & index & _ & Hrow)|[Hsize _]].
  2:{ rewrite <- Hgeq in Hsize. unfold getSize in Hsize. simpl in Hsize.
      by destruct (sampleData lhsDesign). }
  exists index, (xBase t). split; [by rewrite <- Hgeq in Hrow|].
  intros i p row Hi Hp Hr.
  rewrite (Hpoints i Hi) in Hr. injection Hr as <-.
  rewrite trajectoryPoint_lookup by (rewrite <- Hgeq; simpl; by rewrite length_replicate).
  destruct (trajectoryEntry_cases d N g st t st' i p Hg Ht Hi Hp) as (offset & Hoff & ->).
  rewrite <- Hgeq. simpl.
  rewrite !lookup_total_replicate_2 by done.
  rewrite <- Hgeq in Hoff. simpl in Hoff. rewrite lookup_total_replicate_2 in Hoff by done.
  destruct Hoff as [-> | ->]; [left|right]; ring.
Qed.

Lemma lhs_trajectories_anchored_witness :
  wf_sample (mkSample 1 [[1 # 4]; [1 # 2]]%Q) /\
  MorrisExperiment_lhs (mkSample 1 [[1 # 4]; [1 # 2]]%Q) 2 = Ok example_pool /\
  generate (H := Scripted.generator) example_pool [1; 0; 1; 0; 0; 0] =
    Ok (mkSample 1 [[12 # 16]; [8 # 16]; [8 # 32]; [16 # 32]]%Q, []) /\
  exists index point,
    [[1 # 4]; [1 # 2]]%Q !! index = Some point /\
    forall i p row, i <= 1 -> p < 1 ->
      [[12 # 16]; [8 # 16]; [8 # 32]; [16 # 32]]%Q !! (0 * (1 + 1) + i) = Some row ->
      (row !!! p == point !!! p \/
       row !!! p == point !!! p + (1 # 2) / toScalar 2)%Q.
Proof.
  assert (Hwf : wf_sample (mkSample 1 [[1 # 4]; [1 # 2]]%Q)) by repeat constructor.
  split; [exact Hwf|]. split; [reflexivity|]. split; [reflexivity|].
  refine (lhs_trajectories_anchored (H := Scripted.generator)
            (mkSample 1 [[1 # 4]; [1 # 2]]%Q) 2 example_pool [1; 0; 1; 0; 0; 0]
            (mkSample 1 [[12 # 16]; [8 # 16]; [8 # 32]; [16 # 32]]%Q) [] 0
            Hwf eq_refl eq_refl _).
  lia.
Defined.

(** X6. A generator built from a pool and an interval with
    [lowerBound[p] <> upperBound[p]] anchors every trajectory at one of the
    points of the pool, renormalised: each coordinate of each row is
    [lowerBound[p] + delta[p] * s] or
    [lowerBound[p] + delta[p] * (s + 0.5 / poolSize)], where
    [s = (x - lowerBound[p]) / delta[p]] is what the constructor stored for
    the coordinate [x] of that point. *)
Theorem lhs_interval_trajectories_anchored `{RandomGenerator}
    lhsDesign interval N g rng sample rng' k :
  wf_sample lhsDesign -> wf_interval interval ->
  (forall p, p < sampleDimension lhsDesign ->
     ~ (getLowerBound interval !!! p == getUpperBound interval !!! p)%Q) ->
  0 < getSize lhsDesign ->
  MorrisExperiment_lhs_interval lhsDesign interval N = Ok g ->
  generate g rng = Ok (sample, rng') ->
  k < N ->
  exists index point,
    sampleData lhsDesign !! index = Some point /\
    forall i p row, i <= sampleDimension lhsDesign -> p < sampleDimension lhsDesign ->
      sampleData sample !! (k * (sampleDimension lhsDesign + 1) + i) = Some row ->
      (row !!! p ==
         getLowerBound interval !!! p
         + (getUpperBound interval !!! p - getLowerBound interval !!! p)
           * ((point !!! p - getLowerBound interval !!! p)
              / (getUpperBound interval !!! p - getLowerBound interval !!! p)) \/
       row !!! p ==
         getLowerBound interval !!! p
         + (getUpperBound interval !!! p - getLowerBound interval !!! p)
           * ((point !!! p - getLowerBound interval !!! p)
              / (getUpperBound interval !!! p - getLowerBound interval !!! p)
              + (1 # 2) / toScalar (getSize lhsDesign)))%Q.
Proof.
  intros Hwf Hwfi Hdomain Hsize Hctor Hgen Hk.
  pose proof (constructed_lhs_interval lhsDesign interval N g Hwf Hwfi Hctor) as Hg.
  set (d := sampleDimension lhsDesign) in *.
  apply MorrisExperiment_lhs_interval_Ok in Hctor as (Hdim & Hgeq). fold d in Hdim.
  destruct (generate_rows d N g rng sample rng' Hg Hgen) as [_ Hrows].
  destruct (Hrows k Hk) as (t & st & st' & Ht & Hpoints).
  assert (Hstored : getSize (experiment_ g) = getSize lhsDesign).
  { rewrite Hgeq. unfold getSize. simpl. by rewrite !length_map. }
  destruct (trajectoryDraw_xBase g st t st' Ht) as [(_ & index & Hindex & Hrow)|[Hzero _]];
    [|lia].
  rewrite Hstored in Hindex.
  destruct (lookup_lt_is_Some_2 (sampleData lhsDesign) index Hindex) as [point Hpoint].
  exists index, point. split; [exact Hpoint|].
  intros i p row Hi Hp Hr.
  rewrite (Hpoints i Hi) in Hr. injection Hr as <-.
  rewrite trajectoryPoint_lookup by (rewrite Hgeq; simpl; by rewrite length_replicate).
  destruct (trajectoryEntry_cases d N g st t st' i p Hg Ht Hi Hp) as (offset & Hoff & ->).
  assert (Hlen : length point = d).
  { unfold wf_sample in Hwf. rewrite Forall_forall in Hwf.
    apply Hwf. by eapply list_elem_of_lookup_2. }
  destruct (lookup_lt_is_Some_2 point p) as [x Hx]; [lia|].
  destruct (renormalized_lookup lhsDesign interval index p point x Hwf Hwfi Hdim Hpoint Hx)
    as (stored & Hs & Hsp).
  rewrite Hgeq in Hrow. simpl experiment_ in Hrow. rewrite Hs in Hrow.
  injection Hrow as Hxb.
  rewrite <- Hxb, (list_lookup_total_correct _ _ _ Hsp), (list_lookup_total_correct _ _ _ Hx).
  rewrite Hgeq in Hoff |- *. simpl in Hoff |- *.
  rewrite lookup_total_replicate_2 in Hoff by done.
  destruct Hoff as [-> | ->]; [left; ring|right; reflexivity].
Qed.

Lemma lhs_interval_trajectories_anchored_witness :
  wf_sample (mkSample 1 [[1%Q]; [3 # 2]%Q]) /\
  wf_interval (mkInterval [1%Q] [3%Q]) /\
  MorrisExperiment_lhs_interval (mkSample 1 [[1%Q]; [3 # 2]%Q]) (mkInterval [1%Q] [3%Q]) 1
    = Ok example_rescaled /\
  generate (H := Scripted.generator) example_rescaled [1; 0; 0] =
    Ok (mkSample 1 [[48 # 32]; [64 # 32]]%Q, []) /\
  exists index point,
    [[1%Q]; [3 # 2]%Q] !! index = Some point /\
    forall i p row, i <= 1 -> p < 1 ->
      [[48 # 32]; [64 # 32]]%Q !! (0 * (1 + 1) + i) = Some row ->
      (row !!! p ==
         [1%Q] !!! p
         + ([3%Q] !!! p - [1%Q] !!! p)
           * ((point !!! p - [1%Q] !!! p) / ([3%Q] !!! p - [1%Q] !!! p)) \/
       row !!! p ==
         [1%Q] !!! p
         + ([3%Q] !!! p - [1%Q] !!! p)
           * ((point !!! p - [1%Q] !!! p) / ([3%Q] !!! p - [1%Q] !!! p)
              + (1 # 2) / toScalar 2))%Q.
Proof.
  assert (Hwf : wf_sample (mkSample 1 [[1%Q]; [3 # 2]%Q])) by repeat constructor.
  assert (Hwfi : wf_interval (mkInterval [1%Q] [3%Q])) by reflexivity.
  split; [exact Hwf|]. split; [exact Hwfi|]. split; [reflexivity|]. split; [reflexivity|].
  refine (lhs_interval_trajectories_anchored (H := Scripted.generator)
            (mkSample 1 [[1%Q]; [3 # 2]%Q]) (mkInterval [1%Q] [3%Q]) 1 example_rescaled
            [1; 0; 0] (mkSample 1 [[48 # 32]; [64 # 32]]%Q) [] 0
            Hwf Hwfi _ _ eq_refl eq_refl _).
  - intros [|p] Hp; [|simpl in Hp; lia]. by vm_compute.
  - unfold getSize. simpl. lia.
  - lia.
Defined.

(** ** More on the constructors *)

(** The level loop stops at the first level that is too small. *)
Lemma computeStep_first levels e :
  computeStep levels (replicate (length levels) 0%Q) = Throw e ->
  exists j level,
    levels !! j = Some level /\ level <= 1 /\
    (forall k level', k < j -> levels !! k = Some level' -> 1 < level') /\
    e = InvalidArgumentException (LevelsShouldBeAtLeast2 j level).
Proof.
  unfold computeStep. set (n := length levels).
  match goal with |- for_loop 0 n ?b ?a = _ -> _ =>
    destruct (for_loop_cases
      (fun j (_ : list Q) => forall k, k < j -> 1 < levels !!! k)
      (fun j e => (forall k, k < j -> 1 < levels !!! k) /\ j < n /\ levels !!! j <= 1 /\
                  e = InvalidArgumentException (LevelsShouldBeAtLeast2 j (levels !!! j)))
      0 n b a) as [(step & Hloop & _)|(j & e' & Hj & Hloop & Hall & _ & Hbad & He)]
  end.
  - intros k Hk. lia.
  - intros j step Hj Hall. simpl.
    destruct (Nat.leb_spec (levels !!! j) 1) as [Hbad|Hgood].
    + right. eexists. split; [reflexivity|]. by repeat split.
    + left. eexists. split; [reflexivity|].
      intros k Hk. destruct (decide (k = j)) as [->|Hne]; [done|apply Hall; lia].
  - rewrite Hloop. done.
  - rewrite Hloop. intros [= <-].
    exists j, (levels !!! j). split; [by apply list_lookup_lookup_total_lt|].
    split; [exact Hbad|]. split; [|exact He].
    intros k level' Hk Hlevel'. specialize (Hall k Hk).
    by rewrite (list_lookup_total_correct _ _ _ Hlevel') in Hall.
Qed.

(** X8. When a level constructor fails on the levels, the exception names
    the first index whose level is at most 1, and that level: every level
    before it is at least 2. *)
Theorem level_error_names_first levels N e :
  MorrisExperiment_levels levels N = Throw e \/
  (exists interval, length levels = Interval_getDimension interval /\
                    MorrisExperiment_levels_interval levels interval N = Throw e) ->
  exists j level,
    levels !! j = Some level /\ level <= 1 /\
    (forall k level', k < j -> levels !! k = Some level' -> 1 < level') /\
    e = InvalidArgumentException (LevelsShouldBeAtLeast2 j level).
Proof.
  intros [Hctor|(interval & Hdim & Hctor)]; apply computeStep_first.
  - unfold MorrisExperiment_levels in Hctor.
    destruct (computeStep levels (replicate (length levels) 0%Q)); simpl in Hctor;
      [discriminate Hctor|by injection Hctor as ->].
  - unfold MorrisExperiment_levels_interval in Hctor.
    destruct (Nat.eqb_spec (length levels) (Interval_getDimension interval)); [|done].
    simpl in Hctor.
    destruct (computeStep levels (replicate (length levels) 0%Q)); simpl in Hctor;
      [discriminate Hctor|by injection Hctor as ->].
Qed.

Lemma level_error_names_first_witness :
  (MorrisExperiment_levels [3; 1; 0] 1 =
     Throw (InvalidArgumentException (LevelsShouldBeAtLeast2 1 1)) \/
   (exists interval, length [3; 1; 0] = Interval_getDimension interval /\
      MorrisExperiment_levels_interval [3; 1; 0] interval 1 =
        Throw (InvalidArgumentException (LevelsShouldBeAtLeast2 1 1)))) /\
  exists j level,
    [3; 1; 0] !! j = Some level /\ level <= 1 /\
    (forall k level', k < j -> [3; 1; 0] !! k = Some level' -> 1 < level') /\
    InvalidArgumentException (LevelsShouldBeAtLeast2 1 1) =
      InvalidArgumentException (LevelsShouldBeAtLeast2 j level).
Proof.
  assert (Hctor : MorrisExperiment_levels [3; 1; 0] 1 =
     Throw (InvalidArgumentException (LevelsShouldBeAtLeast2 1 1)) \/
   (exists interval, length [3; 1; 0] = Interval_getDimension interval /\
      MorrisExperiment_levels_interval [3; 1; 0] interval 1 =
        Throw (InvalidArgumentException (LevelsShouldBeAtLeast2 1 1)))).
  { left. reflexivity. }
  split; [exact Hctor|].
  exact (level_error_names_first [3; 1; 0] 1 _ Hctor).
Defined.

(** X9. The two constructors that take an interval fail with
    DimensionMismatch exactly when the interval's dimension is not the
    number of levels, respectively the pool's dimension; the exception
    carries both sizes.  The pool constructor fails in no other way. *)
Theorem dimension_checks levels lhsDesign interval N :
  (failsWith (MorrisExperiment_levels_interval levels interval N) DimensionMismatch <->
   length levels <> Interval_getDimension interval) /\
  (length levels <> Interval_getDimension interval ->
   MorrisExperiment_levels_interval levels interval N =
     Throw (InvalidArgumentException
              (LevelsAndIntervalSameSize (length levels) (Interval_getDimension interval)))) /\
  (failsWith (MorrisExperiment_lhs_interval lhsDesign interval N) DimensionMismatch <->
   sampleDimension lhsDesign <> Interval_getDimension interval) /\
  (sampleDimension lhsDesign <> Interval_getDimension interval ->
   MorrisExperiment_lhs_interval lhsDesign interval N =
     Throw (InvalidArgumentException
              (LevelsAndDesignSameDimension (sampleDimension lhsDesign)
                                            (Interval_getDimension interval)))) /\
  ((exists g, MorrisExperiment_lhs_interval lhsDesign interval N = Ok g) <->
   sampleDimension lhsDesign = Interval_getDimension interval).
Proof.
  split.
  { unfold failsWith, MorrisExperiment_levels_interval.
    destruct (Nat.eqb_spec (length levels) (Interval_getDimension interval)) as [Hl|Hl];
      simpl.
    - split; [|done]. intros (e & He & Hkind).
      destruct (computeStep_cases levels) as [(step & Hc & _)|(j & _ & _ & Hc)];
        rewrite Hc in He; simpl in He; [discriminate He|].
      injection He as <-. discriminate Hkind.
    - split; [done|]. intros _. eexists. by split. }
  split.
  { intros Hl. unfold MorrisExperiment_levels_interval.
    destruct (Nat.eqb_spec (length levels) (Interval_getDimension interval)); done. }
  split.
  { unfold failsWith, MorrisExperiment_lhs_interval.
    destruct (Nat.eqb_spec (sampleDimension lhsDesign) (Interval_getDimension interval))
      as [Hs|Hs]; simpl.
    - split; [|done]. intros (e & He & _). discriminate He.
    - split; [done|]. intros _. eexists. by split. }
  split.
  { intros Hs. unfold MorrisExperiment_lhs_interval.
    destruct (Nat.eqb_spec (sampleDimension lhsDesign) (Interval_getDimension interval));
      done. }
  unfold MorrisExperiment_lhs_interval.
  destruct (Nat.eqb_spec (sampleDimension lhsDesign) (Interval_getDimension interval))
    as [Hs|Hs]; simpl.
  - split; [done|]. intros _. by eexists.
  - split; [|done]. intros (g & Hg). discriminate Hg.
Qed.

(** X10. Every constructor that returns leaves steps in [(0, 1]]: the level
    constructors because they refuse a level below 2, the pool constructors
    because the step is half the inverse of the pool size.  The one
    exception is the pool constructor with an interval when the pool is
    empty, where the step is [0.5 / 0]. *)
Theorem steps_in_unit_interval d N g :
  constructed d N g ->
  (forall c, c < d -> (0 < step_ g !!! c /\ step_ g !!! c <= 1)%Q) \/
  (exists lhsDesign interval,
     MorrisExperiment_lhs_interval lhsDesign interval N = Ok g /\ getSize lhsDesign = 0).
Proof.
  intros Hg.
  destruct (constructed_steps d N g Hg) as [Hpos|Hempty]; [|by right].
  destruct Hg as [levels N g Hg|levels interval N g Hwf Hg|lhs N g Hwf Hg
                 |lhs interval N g Hwf Hwfi Hg].
  - left. intros c Hc. split; [by apply Hpos|].
    destruct (lookup_lt_is_Some_2 levels c Hc) as [level Hlevel].
    destruct (levels_generator_shape levels N g (or_introl Hg)) as (Hall & -> & _).
    erewrite list_lookup_total_correct; [|by rewrite list_lookup_fmap, Hlevel].
    apply stepOfLevel_le_1. by eapply Hall.
  - left. intros c Hc. split; [by apply Hpos|].
    destruct (lookup_lt_is_Some_2 levels c Hc) as [level Hlevel].
    destruct (levels_generator_shape levels N g (or_intror (ex_intro _ interval Hg)))
      as (Hall & -> & _).
    erewrite list_lookup_total_correct; [|by rewrite list_lookup_fmap, Hlevel].
    apply stepOfLevel_le_1. by eapply Hall.
  - left. intros c Hc. split; [by apply Hpos|].
    destruct (MorrisExperiment_lhs_cases lhs N Hwf)
      as [[_ He]|[(Hne & _ & He)|(_ & k & a & b & He)]]; rewrite He in Hg; try done.
    injection Hg as <-. simpl. rewrite lookup_total_replicate_2 by done.
    apply poolStep_le_1. unfold getSize. destruct (sampleData lhs); [done|simpl; lia].
  - destruct (decide (getSize lhs = 0)) as [Hzero|Hne].
    + right. by exists lhs, interval.
    + left. intros c Hc. split; [by apply Hpos|].
      apply MorrisExperiment_lhs_interval_Ok in Hg as (_ & ->). simpl.
      rewrite lookup_total_replicate_2 by done. apply poolStep_le_1. lia.
Qed.

Lemma steps_in_unit_interval_witness :
  constructed 1 2 example_pool /\
  ((forall c, c < 1 -> (0 < step_ example_pool !!! c /\ step_ example_pool !!! c <= 1)%Q) \/
   (exists lhsDesign interval,
      MorrisExperiment_lhs_interval lhsDesign interval 2 = Ok example_pool /\
      getSize lhsDesign = 0)).
Proof.
  split; [exact example_pool_constructed|].
  exact (steps_in_unit_interval 1 2 example_pool example_pool_constructed).
Defined.

(** ** How far a pool trajectory can leave the unit cube *)

(** X11. A generator built from a pool alone generates coordinates in
    [[0, 1 + 0.5 / poolSize]]: the constructor has checked that the pool lies
    in the unit cube, and a trajectory moves at most one step up from a pool
    point. *)
Theorem lhs_coordinates_bounded `{RandomGenerator} lhsDesign N g rng sample rng' :
  wf_sample lhsDesign ->
  MorrisExperiment_lhs lhsDesign N = Ok g ->
  generate g rng = Ok (sample, rng') ->
  forall r p row, sampleData sample !! r = Some row -> p < sampleDimension lhsDesign ->
    (0 <= row !!! p /\ row !!! p <= 1 + (1 # 2) / toScalar (getSize lhsDesign))%Q.
Proof.
  intros Hwf Hctor Hgen r p row Hr Hp.
  pose proof (constructed_lhs lhsDesign N g Hwf Hctor) as Hg.
  set (d := sampleDimension lhsDesign) in *.
  destruct (MorrisExperiment_lhs_cases lhsDesign N Hwf)
    as [[_ He]|[(Hne & Hinside & He)|(_ & c & a & b & He)]]; rewrite He in Hctor; try done.
  injection Hctor as Hgeq.
  destruct (generate_rows d N g rng sample rng' Hg Hgen) as [Hsize Hrows].
  pose proof (lookup_lt_Some _ _ _ Hr) as Hlt. fold (getSize sample) in Hlt.
  rewrite Hsize in Hlt.
  assert (Hsplit : r = r / (d + 1) * (d + 1) + r mod (d + 1)).
  { rewrite (Nat.mul_comm (r / (d + 1))). apply Nat.div_mod_eq. }
  assert (Hk : r / (d + 1) < N) by (apply Nat.Div0.div_lt_upper_bound; lia).
  assert (Hi : r mod (d + 1) <= d).
  { pose proof (Nat.mod_upper_bound r (d + 1)). lia. }
  destruct (Hrows _ Hk) as (t & st & st' & Ht & Hpoints).
  specialize (Hpoints _ Hi). rewrite <- Hsplit, Hr in Hpoints. injection Hpoints as ->.
  rewrite trajectoryPoint_lookup by (rewrite <- Hgeq; simpl; by rewrite length_replicate).
  destruct (trajectoryEntry_cases d N g st t st' (r mod (d + 1)) p Hg Ht Hi Hp)
    as (offset & Hoff & ->).
  destruct (trajectoryDraw_xBase g st t st' Ht) as [(_ & index & _ & Hrow)|[Hzero _]].
  2:{ rewrite <- Hgeq in Hzero. unfold getSize in Hzero. simpl in Hzero.
      by destruct (sampleData lhsDesign). }
  rewrite <- Hgeq in Hrow. simpl in Hrow.
  assert (Hlen : length (xBase t) = d).
  { unfold wf_sample in Hwf. rewrite Forall_forall in Hwf.
    apply Hwf. by eapply list_elem_of_lookup_2. }
  destruct (lookup_lt_is_Some_2 (xBase t) p) as [x Hx]; [lia|].
  assert (Hx01 : (0 <= x /\ x <= 1)%Q).
  { split.
    - destruct (Qlt_le_dec x 0) as [Hlow|Hok]; [|exact Hok].
      exfalso. apply Hinside. exists (xBase t), p, x.
      split; [by eapply list_elem_of_lookup_2|]. split; [exact Hx|by left].
    - destruct (Qlt_le_dec 1 x) as [Hhigh|Hok]; [|exact Hok].
      exfalso. apply Hinside. exists (xBase t), p, x.
      split; [by eapply list_elem_of_lookup_2|]. split; [exact Hx|by right]. }
  rewrite (list_lookup_total_correct _ _ _ Hx).
  rewrite <- Hgeq. simpl.
  rewrite !lookup_total_replicate_2 by done.
  rewrite <- Hgeq in Hoff. simpl in Hoff. rewrite lookup_total_replicate_2 in Hoff by done.
  assert (Hstep : (0 < (1 # 2) / toScalar (getSize lhsDesign))%Q).
  { apply poolStep_pos. unfold getSize. destruct (sampleData lhsDesign); [done|simpl; lia]. }
  destruct Hx01 as [Hx0 Hx1].
  destruct Hoff as [-> | ->]; split; lra.
Qed.

Lemma lhs_coordinates_bounded_witness :
  wf_sample (mkSample 1 [[1%Q]]) /\
  MorrisExperiment_lhs (mkSample 1 [[1%Q]]) 1 = Ok example_corner /\
  generate (H := Scripted.generator) example_corner [] =
    Ok (mkSample 1 [[4 # 4]; [6 # 4]]%Q, []) /\
  forall r p row, [[4 # 4]; [6 # 4]]%Q !! r = Some row -> p < 1 ->
    (0 <= row !!! p /\ row !!! p <= 1 + (1 # 2) / toScalar 1)%Q.
Proof.
  assert (Hwf : wf_sample (mkSample 1 [[1%Q]])) by repeat constructor.
  split; [exact Hwf|]. split; [reflexivity|]. split; [reflexivity|].
  exact (lhs_coordinates_bounded (H := Scripted.generator) (mkSample 1 [[1%Q]]) 1
           example_corner [] (mkSample 1 [[4 # 4]; [6 # 4]]%Q) [] Hwf eq_refl eq_refl).
Defined.
